(** * Pokemon-Manager-API: the record service and its HTTP controller

    A shallow embedding of [pokemon.service.ts] and [app.controller.ts].

    - JavaScript numbers are IEEE 754 binary64 values: they are modelled by
      [spec_float] and the operations of the Standard Library's [SpecFloat]
      at precision 53 and maximal exponent 1024.
    - JavaScript strings are modelled by [string], read as UTF-8 text.
    - The Prisma client is modelled by a store (the [Pokemon] table as a
      [gmap] from ids to rows, the serial counter, and the log of the client
      calls issued so far) threaded through a state-and-exception monad. *)

From Stdlib Require Import ZArith List Ascii String Bool Lia.
From Stdlib Require Import Floats.SpecFloat.
From stdpp Require Import gmap strings.

Local Open Scope Z_scope.

(** ** JavaScript numbers *)

Module Js.

Definition prec : Z := 53.
Definition emax : Z := 1024.

Abbreviation number := spec_float.

Definition NaN : number := S754_nan.
Definition Infinity : number := S754_infinity false.
Definition pzero : number := S754_zero false.

(** The number whose value is the integer [z] (rounded when [z] does not
    fit the 53 bits of a mantissa). *)
Definition ofZ (z : Z) : number := binary_normalize prec emax z 0 false.

(** The canonical representation of the integer [v], [0 < v < 2 ^ 53]: a
    mantissa of 53 bits. *)
Definition canon (s : bool) (v : Z) : number :=
  S754_finite s (Z.to_pos (v * 2 ^ (53 - Zdigits2 v))) (Zdigits2 v - 53).

Definition add : number -> number -> number := SFadd prec emax.
Definition sub : number -> number -> number := SFsub prec emax.
Definition mul : number -> number -> number := SFmul prec emax.
Definition div : number -> number -> number := SFdiv prec emax.

(** [x < y] and [x >= y]; both are false when an operand is NaN. *)
Definition lt (x y : number) : bool := SFltb x y.
Definition ge (x y : number) : bool := SFleb y x.

(** [Number.isInteger]: finite, with no fractional part. *)
Definition isInteger (x : number) : bool :=
  match x with
  | S754_zero _ => true
  | S754_finite _ m (Zneg p) => Z.pos m mod 2 ^ Z.pos p =? 0
  | S754_finite _ _ _ => true
  | _ => false
  end.

(** The integer part of a finite number (truncation towards zero); NaN and
    the infinities have none. *)
Definition toZ (x : number) : option Z :=
  match x with
  | S754_zero _ => Some 0
  | S754_finite s m e =>
      let a := match e with
               | Zneg p => Z.pos m / 2 ^ Z.pos p
               | _ => Z.pos m * 2 ^ e
               end in
      Some (if s then - a else a)
  | _ => None
  end.

(** [ToBoolean] on a number: 0, -0 and NaN are falsy. *)
Definition truthy (x : number) : bool :=
  match x with
  | S754_zero _ | S754_nan => false
  | _ => true
  end.

(** *** StringToNumber

    The grammar [StringNumericLiteral] of ECMAScript: white space on both
    sides, then nothing (the value is 0), a binary, octal or hexadecimal
    integer, or a signed decimal literal or [Infinity]. Anything else is
    NaN. The mathematical value of a literal is rounded to the nearest
    binary64 value, ties to even. *)

Definition is_ws1 (c : ascii) : bool :=
  let n := N_of_ascii c in
  ((9 <=? n) && (n <=? 13) || (n =? 32))%N.

(** White space outside ASCII, as UTF-8 byte sequences: U+00A0, U+1680,
    U+2000..U+200A, U+2028, U+2029, U+202F, U+205F, U+3000, U+FEFF. *)
Definition is_ws2 (a b : ascii) : bool :=
  ((N_of_ascii a =? 194) && (N_of_ascii b =? 160))%N.

Definition is_ws3 (a b c : ascii) : bool :=
  let x := N_of_ascii a in
  let y := N_of_ascii b in
  let z := N_of_ascii c in
  ((x =? 225) && (y =? 154) && (z =? 128)
   || (x =? 226) && (y =? 128)
      && ((128 <=? z) && (z <=? 138) || (z =? 168) || (z =? 169) || (z =? 175))
   || (x =? 226) && (y =? 129) && (z =? 159)
   || (x =? 227) && (y =? 128) && (z =? 128)
   || (x =? 239) && (y =? 187) && (z =? 191))%N.

Fixpoint trim_start (l : list ascii) : list ascii :=
  match l with
  | a :: r =>
      if is_ws1 a then trim_start r
      else match r with
           | b :: r' =>
               if is_ws2 a b then trim_start r'
               else match r' with
                    | c :: r'' => if is_ws3 a b c then trim_start r'' else l
                    | _ => l
                    end
           | _ => l
           end
  | _ => l
  end.

(** The same on a reversed list: the bytes of a character come last first. *)
Fixpoint trim_start_rev (l : list ascii) : list ascii :=
  match l with
  | a :: r =>
      if is_ws1 a then trim_start_rev r
      else match r with
           | b :: r' =>
               if is_ws2 b a then trim_start_rev r'
               else match r' with
                    | c :: r'' => if is_ws3 c b a then trim_start_rev r'' else l
                    | _ => l
                    end
           | _ => l
           end
  | _ => l
  end.

Definition trim (l : list ascii) : list ascii :=
  rev (trim_start_rev (rev (trim_start l))).

Definition digit_of (base : Z) (c : ascii) : option Z :=
  let n := Z.of_N (N_of_ascii c) in
  let d := if (48 <=? n) && (n <=? 57) then n - 48
           else if (97 <=? n) && (n <=? 122) then n - 87
           else if (65 <=? n) && (n <=? 90) then n - 55
           else 99 in
  if d <? base then Some d else None.

(** The longest prefix of digits in [base]: its value (from [acc]), how many
    digits it has, and what follows. *)
Fixpoint digits (base : Z) (acc : Z) (cnt : Z) (l : list ascii)
  : Z * Z * list ascii :=
  match l with
  | c :: r =>
      match digit_of base c with
      | Some d => digits base (acc * base + d) (cnt + 1) r
      | None => (acc, cnt, l)
      end
  | [] => (acc, cnt, l)
  end.

(** A literal that is nothing but one or more digits in [base]. *)
Definition all_digits (base : Z) (l : list ascii) : option Z :=
  match digits base 0 0 l with
  | (v, cnt, []) => if 0 <? cnt then Some v else None
  | _ => None
  end.

(** [ExponentPart] when present: [e] or [E], an optional sign and digits up
    to the end of the literal. *)
Definition exponent (l : list ascii) : option Z :=
  match l with
  | [] => Some 0
  | c :: r =>
      if (N_of_ascii c =? 101)%N || (N_of_ascii c =? 69)%N then
        match r with
        | "+"%char :: r' => all_digits 10 r'
        | "-"%char :: r' => option_map Z.opp (all_digits 10 r')
        | _ => all_digits 10 r
        end
      else None
  end.

(** The binary64 value nearest to [m * 10 ^ e], for [m > 0]. *)
Definition round_decimal (s : bool) (m : positive) (e : Z) : number :=
  match e with
  | Zneg p =>
      let '(q, e', l) :=
        SFdiv_core_binary prec emax (Z.pos m) 0 (10 ^ Z.pos p) 0 in
      binary_round_aux prec emax s q e' l
  | _ => binary_normalize prec emax (if s then - (Z.pos m * 10 ^ e) else Z.pos m * 10 ^ e) 0 false
  end.

Definition of_decimal (s : bool) (m : Z) (e : Z) : number :=
  match m with
  | Z.pos p => round_decimal s p e
  | _ => S754_zero s
  end.

(** [StrUnsignedDecimalLiteral] with the sign [s] already read. *)
Definition unsigned_decimal (s : bool) (l : list ascii) : number :=
  if String.eqb (string_of_list_ascii l) "Infinity" then S754_infinity s
  else
    let '(ip, ni, r) := digits 10 0 0 l in
    match r with
    | "."%char :: r' =>
        let '(m, nf, r'') := digits 10 ip 0 r' in
        if 0 <? ni + nf then
          match exponent r'' with
          | Some x => of_decimal s m (x - nf)
          | None => NaN
          end
        else NaN
    | _ =>
        if 0 <? ni then
          match exponent r with
          | Some x => of_decimal s ip x
          | None => NaN
          end
        else NaN
    end.

Definition prefixed (l : list ascii) : option (Z * list ascii) :=
  match l with
  | "0"%char :: c :: r =>
      let n := N_of_ascii c in
      if (n =? 120)%N || (n =? 88)%N then Some (16, r)
      else if (n =? 111)%N || (n =? 79)%N then Some (8, r)
      else if (n =? 98)%N || (n =? 66)%N then Some (2, r)
      else None
  | _ => None
  end.

Definition StringToNumber (str : string) : number :=
  match trim (list_ascii_of_string str) with
  | [] => pzero
  | l =>
      match prefixed l with
      | Some (base, r) =>
          match all_digits base r with
          | Some v => ofZ v
          | None => NaN
          end
      | None =>
          match l with
          | "+"%char :: r => unsigned_decimal false r
          | "-"%char :: r => unsigned_decimal true r
          | _ => unsigned_decimal false l
          end
      end
  end.

End Js.

(** ** JavaScript values that reach the service *)

Module JsValue.

(** A JSON primitive, or [undefined] for a key that the body leaves out. *)
Inductive value :=
  | undefined
  | null
  | boolean (b : bool)
  | num (n : Js.number)
  | str (s : string).

(** [Number(v)]. *)
Definition ToNumber (v : value) : Js.number :=
  match v with
  | undefined => Js.NaN
  | null => Js.pzero
  | boolean true => Js.ofZ 1
  | boolean false => Js.pzero
  | num n => n
  | str s => Js.StringToNumber s
  end.

End JsValue.

(** A parameter of type [string | undefined]: [None] is [undefined]. *)
Definition Number_ (o : option string) : Js.number :=
  match o with
  | Some s => Js.StringToNumber s
  | None => Js.NaN
  end.

Definition String_ (o : option string) : string :=
  match o with
  | Some s => s
  | None => "undefined"
  end.

(** [o === lit] in the cases of a [switch] over a [string | undefined]. *)
Definition strict_eq (o : option string) (lit : string) : bool :=
  match o with
  | Some s => String.eqb s lit
  | None => false
  end.

(** [!s] for [s : string | undefined]. *)
Definition falsy (o : option string) : bool :=
  match o with
  | Some s => String.eqb s EmptyString
  | None => true
  end.

(** ** Data *)

Inductive SortOrder := asc | desc.

Inductive Column := col_id | col_name | col_height | col_weight | col_image.

(** [Prisma.PokemonOrderByWithRelationInput], as the service builds it: an
    object with a single key. *)
Record OrderBy := { ob_column : Column; ob_dir : SortOrder }.

Record StringFilter := { contains : option string }.
Record IntFilter := { gte : option Js.number; lte : option Js.number }.

(** [Prisma.PokemonWhereInput], as the service builds it. *)
Record WhereInput := {
  w_name : StringFilter;
  w_height : IntFilter;
  w_weight : IntFilter
}.

Record PokemonParams := {
  p_where : WhereInput;
  p_orderBy : option OrderBy;
  p_skip : Js.number;
  p_take : Js.number
}.

Record PokemonQuery := {
  q_orderBy : option string;
  q_orderDir : option string;
  q_name : option string;
  q_heightGte : option string;
  q_heightLeq : option string;
  q_weightGte : option string;
  q_weightLeq : option string;
  q_page : option string;
  q_pageSize : option string
}.

Definition Error := string.

(** The body of a POST or PUT request. [name] and [image] are declared
    [string] and may be left out; [height] and [weight] are declared
    [number] and are coerced with [Number], so any primitive is kept. *)
Record PokemonInput := {
  in_name : option string;
  in_height : JsValue.value;
  in_weight : JsValue.value;
  in_image : option string
}.

(** [Prisma.PokemonCreateInput], what [resolveData] hands to the client. *)
Record CreateInput := {
  ci_name : string;
  ci_height : Js.number;
  ci_weight : Js.number;
  ci_image : string
}.

(** A row of the table [Pokemon]. *)
Record Pokemon := {
  id : Z;
  name : string;
  height : Z;
  weight : Z;
  image : string
}.

(** ** Exceptions and the store monad *)

Inductive Response :=
  | message (m : string)
  | messages (ms : list string).

Inductive Exception :=
  | BadRequestException (r : Response)
  | PrismaClientError (m : string).

Inductive Result (A : Type) :=
  | Ok (a : A)
  | Throw (e : Exception).
Arguments Ok {A} a.
Arguments Throw {A} e.

(** The calls received by the database client. *)
Inductive Call :=
  | FindMany (args : PokemonParams)
  | FindUnique (i : Js.number)
  | Create (data : CreateInput)
  | Update (i : Js.number) (data : CreateInput)
  | Delete (i : Js.number).

Record Store := {
  table : gmap Z Pokemon;
  serial : Z;
  calls : list Call
}.

Definition M (A : Type) : Type := Store -> Result A * Store.

Definition ret {A} (a : A) : M A := fun s => (Ok a, s).
Definition throw {A} (e : Exception) : M A := fun s => (Throw e, s).
Definition bind {A B} (m : M A) (k : A -> M B) : M B :=
  fun s =>
    match m s with
    | (Ok a, s') => k a s'
    | (Throw e, s') => (Throw e, s')
    end.
Definition lift {A} (r : Result A) : M A := fun s => (r, s).

Declare Scope store_scope.
Delimit Scope store_scope with store.
Notation "x <- m ;; k" := (bind m (fun x => k))
  (at level 100, m at next level, right associativity) : store_scope.

Definition is_mutation (c : Call) : bool :=
  match c with
  | Create _ | Update _ _ | Delete _ => true
  | _ => false
  end.

(** ** The database client

    [prisma.service.ts] only extends the generated client, which is not part
    of the sources; its five operations are modelled here. *)

Module Prisma.

Local Open Scope store_scope.

(** The client records the calls it receives. *)
Definition log (c : Call) : M unit :=
  fun s => (Ok tt, {| table := table s; serial := serial s; calls := calls s ++ [c] |}).

Definition get_table : M (gmap Z Pokemon) := fun s => (Ok (table s), s).

Definition put_table (t : gmap Z Pokemon) : M unit :=
  fun s => (Ok tt, {| table := t; serial := serial s; calls := calls s |}).

Definition fresh_id : M Z :=
  fun s => (Ok (serial s), {| table := table s; serial := serial s + 1; calls := calls s |}).

(** Modelled from the spec: an integer argument of the client, a number
    with an integer value; the columns [id], [height] and [weight] are
    integers. *)
Definition int (n : Js.number) : option Z :=
  if Js.isInteger n then Js.toZ n else None.

Definition row (k : Z) (data : CreateInput) : option Pokemon :=
  match int (ci_height data), int (ci_weight data) with
  | Some h, Some w =>
      Some {| id := k; name := ci_name data; height := h; weight := w;
              image := ci_image data |}
  | _, _ => None
  end.

(** Modelled from the spec: the client's find-unique-by-id, the lookup of
    the row whose primary key is the given id (null when there is none). *)
Definition findUnique (i : Js.number) : M (option Pokemon) :=
  _ <- log (FindUnique i);;
  t <- get_table;;
  match int i with
  | Some k => ret (t !! k)
  | None => throw (PrismaClientError "Invalid value for argument id")
  end.

(** Modelled from the spec: the client's create, which inserts a row under
    an id assigned by storage and returns it. *)
Definition create (data : CreateInput) : M Pokemon :=
  _ <- log (Create data);;
  k <- fresh_id;;
  t <- get_table;;
  match row k data with
  | Some r => _ <- put_table (<[k := r]> t);; ret r
  | None => throw (PrismaClientError "Invalid value for argument data")
  end.

(** Modelled from the spec: the client's update, which replaces the four
    fields of the row with the given id and returns it. *)
Definition update (i : Js.number) (data : CreateInput) : M Pokemon :=
  _ <- log (Update i data);;
  t <- get_table;;
  match int i with
  | Some k =>
      match t !! k, row k data with
      | Some _, Some r => _ <- put_table (<[k := r]> t);; ret r
      | None, _ => throw (PrismaClientError "Record to update not found")
      | _, None => throw (PrismaClientError "Invalid value for argument data")
      end
  | None => throw (PrismaClientError "Invalid value for argument id")
  end.

(** Modelled from the spec: the client's delete, which removes the row with
    the given id and returns the removed row. *)
Definition delete (i : Js.number) : M Pokemon :=
  _ <- log (Delete i);;
  t <- get_table;;
  match int i with
  | Some k =>
      match t !! k with
      | Some r => _ <- put_table (base.delete k t);; ret r
      | None => throw (PrismaClientError "Record to delete does not exist")
      end
  | None => throw (PrismaClientError "Invalid value for argument id")
  end.

(** Modelled from the spec: the filter of find-many, a substring match on
    the name and inclusive lower and upper bounds on height and weight,
    each of them optional. *)
Fixpoint includes (sub s : string) : bool :=
  String.prefix sub s
  || match s with
     | String _ r => includes sub r
     | EmptyString => false
     end.

Definition in_range (f : IntFilter) (v : Z) : bool :=
  match gte f with Some b => Js.ge (Js.ofZ v) b | None => true end
  && match lte f with Some b => Js.ge b (Js.ofZ v) | None => true end.

Definition matches (w : WhereInput) (r : Pokemon) : bool :=
  match contains (w_name w) with Some sub => includes sub (name r) | None => true end
  && in_range (w_height w) (height r)
  && in_range (w_weight w) (weight r).

(** Modelled from the spec: the order of find-many, by one column,
    ascending or descending; no order leaves the rows as the table has
    them. *)
Definition column_leb (c : Column) (a b : Pokemon) : bool :=
  match c with
  | col_id => id a <=? id b
  | col_name => String.leb (name a) (name b)
  | col_height => height a <=? height b
  | col_weight => weight a <=? weight b
  | col_image => String.leb (image a) (image b)
  end.

Definition order_leb (o : OrderBy) (a b : Pokemon) : bool :=
  match ob_dir o with
  | asc => column_leb (ob_column o) a b
  | desc => column_leb (ob_column o) b a
  end.

Fixpoint insert_sorted (leb : Pokemon -> Pokemon -> bool) (x : Pokemon)
  (l : list Pokemon) : list Pokemon :=
  match l with
  | [] => [x]
  | y :: r => if leb x y then x :: l else y :: insert_sorted leb x r
  end.

Definition sort_rows (o : option OrderBy) (l : list Pokemon) : list Pokemon :=
  match o with
  | Some ob => foldr (insert_sorted (order_leb ob)) [] l
  | None => l
  end.

(** Modelled from the spec: the pagination of find-many. *)
Fixpoint skip_rows (k : Z) (l : list Pokemon) : list Pokemon :=
  match l with
  | x :: r => if 0 <? k then skip_rows (k - 1) r else l
  | [] => []
  end.

Fixpoint first_rows (k : Z) (l : list Pokemon) : list Pokemon :=
  match l with
  | x :: r => if 0 <? k then x :: first_rows (k - 1) r else []
  | [] => []
  end.

(** Modelled from the spec: the client's find-many, the rows that satisfy
    the filter, in the requested order, without the first [skip] of them and
    at most [take] of them. *)
Definition findMany (args : PokemonParams) : M (list Pokemon) :=
  _ <- log (FindMany args);;
  t <- get_table;;
  match int (p_skip args), int (p_take args) with
  | Some sk, Some tk =>
      if (0 <=? sk) && (0 <=? tk) then
        ret (first_rows tk
               (skip_rows sk
                  (sort_rows (p_orderBy args)
                     (filter (fun r => matches (p_where args) r = true)
                        (map snd (map_to_list t))))))
      else throw (PrismaClientError "Invalid value for argument skip")
  | _, _ => throw (PrismaClientError "Invalid value for argument skip")
  end.

End Prisma.

(** ** pokemon.service.ts *)

Module PokemonService.

Local Open Scope store_scope.

Record Page := { pokemons : list Pokemon; page : Js.number }.

Definition getPokemons (params : PokemonParams) : M Page :=
  let '(Build_PokemonParams where_ orderBy skip take) := params in
  pokemons <- Prisma.findMany
    {| p_where := where_; p_orderBy := orderBy; p_skip := skip; p_take := take |};;
  ret {| pokemons := pokemons;
         page := Js.add (Js.div skip take) (Js.ofZ 1) |}.

Definition parseOrderDir (orderDir : option string) : SortOrder :=
  if String.eqb (String_ orderDir) "desc" then desc else asc.

Definition resolveNumber (number : option string) : option Js.number :=
  let parsedNumber := Number_ number in
  if Js.isInteger parsedNumber then Some parsedNumber else None.

Definition resolveOrderBy (pokemonQuery : PokemonQuery) : option OrderBy :=
  let orderBy := q_orderBy pokemonQuery in
  let orderDir := q_orderDir pokemonQuery in
  let orderDirValue := parseOrderDir orderDir in
  if strict_eq orderBy "name" then
    Some {| ob_column := col_name; ob_dir := orderDirValue |}
  else if strict_eq orderBy "height" then
    Some {| ob_column := col_name; ob_dir := orderDirValue |}
  else if strict_eq orderBy "weight" then
    Some {| ob_column := col_name; ob_dir := orderDirValue |}
  else None.

Definition resolveWhere (pokemonQuery : PokemonQuery) : WhereInput :=
  {| w_name := {| contains := q_name pokemonQuery |};
     w_height := {| gte := resolveNumber (q_heightGte pokemonQuery);
                    lte := resolveNumber (q_heightLeq pokemonQuery) |};
     w_weight := {| gte := resolveNumber (q_weightGte pokemonQuery);
                    lte := resolveNumber (q_weightLeq pokemonQuery) |} |}.

Definition resolvePageSize (pageSize : option string) : Result Js.number :=
  match pageSize with
  | None => Ok (Js.ofZ 10)
  | _ =>
      if strict_eq pageSize "10" then Ok (Js.ofZ 10)
      else if strict_eq pageSize "20" then Ok (Js.ofZ 20)
      else if strict_eq pageSize "50" then Ok (Js.ofZ 50)
      else Throw (BadRequestException
                    (message "Invalid page size. Valid sizes: 10, 20, 50"))
  end.

(** [!resolvedPage || resolvedPage < 1 ? 1 : resolvedPage] *)
Definition validPage (resolvedPage : option Js.number) : Js.number :=
  match resolvedPage with
  | Some n => if negb (Js.truthy n) || Js.lt n (Js.ofZ 1) then Js.ofZ 1 else n
  | None => Js.ofZ 1
  end.

Record SkipTake := { skip : Js.number; take : Js.number }.

Definition resolvePage (pokemonQuery : PokemonQuery) : Result SkipTake :=
  let pageSize := q_pageSize pokemonQuery in
  let page := q_page pokemonQuery in
  match resolvePageSize pageSize with
  | Throw e => Throw e
  | Ok validPageSize =>
      let resolvedPage := resolveNumber page in
      let validPage := validPage resolvedPage in
      Ok {| skip := Js.mul validPageSize (Js.sub validPage (Js.ofZ 1));
            take := validPageSize |}
  end.

Definition constructParams (pokemonQuery : PokemonQuery) : Result PokemonParams :=
  let where_ := resolveWhere pokemonQuery in
  let orderBy := resolveOrderBy pokemonQuery in
  match resolvePage pokemonQuery with
  | Throw e => Throw e
  | Ok st =>
      Ok {| p_where := where_; p_orderBy := orderBy;
            p_skip := skip st; p_take := take st |}
  end.

Definition createPokemon (data : CreateInput) : M Pokemon :=
  Prisma.create data.

Definition updatePokemon (where_ : Js.number) (data : CreateInput) : M Pokemon :=
  Prisma.update where_ data.

Definition deletePokemon (where_ : Js.number) : M Pokemon :=
  Prisma.delete where_.

Definition getPokemon (i : Js.number) : M (option Pokemon) :=
  Prisma.findUnique i.

Definition validateId (i : Js.number) : M (option Error) :=
  if Js.isInteger i && Js.ge i Js.pzero then
    found <- getPokemon i;;
    match found with
    | Some _ => ret None
    | None => ret (Some "Invalid id")
    end
  else ret (Some "Invalid id").

Definition resolveData (data : PokemonInput) : CreateInput :=
  {| ci_name := String_ (in_name data);
     ci_height := JsValue.ToNumber (in_height data);
     ci_weight := JsValue.ToNumber (in_weight data);
     ci_image := String_ (in_image data) |}.

Definition push (cond : bool) (e : Error) (errors : list Error) : list Error :=
  if cond then errors ++ [e] else errors.

Definition validateData (data : PokemonInput) : option (list Error) :=
  let parsedHeight := JsValue.ToNumber (in_height data) in
  let parsedWeight := JsValue.ToNumber (in_weight data) in
  let errors := [] in
  let errors := push (falsy (in_name data)) "Invalid name" errors in
  let errors :=
    push (negb (Js.isInteger parsedHeight) || Js.lt parsedHeight Js.pzero)
      "Invalid height" errors in
  let errors :=
    push (negb (Js.isInteger parsedWeight) || Js.lt parsedWeight Js.pzero)
      "Invalid weight" errors in
  let errors := push (falsy (in_image data)) "Invalid image url" errors in
  if (0 <? length errors)%nat then Some errors else None.

End PokemonService.

(** ** app.controller.ts

    The handlers as they run once the basic-auth guard of the mutating
    routes has let the request through. *)

Module AppController.

Local Open Scope store_scope.

Definition getPokemons (query : PokemonQuery) : M PokemonService.Page :=
  params <- lift (PokemonService.constructParams query);;
  PokemonService.getPokemons params.

Definition createPokemon (pokemonData : PokemonInput) : M Pokemon :=
  match PokemonService.validateData pokemonData with
  | Some validationResult =>
      throw (BadRequestException (messages validationResult))
  | None =>
      let input := PokemonService.resolveData pokemonData in
      PokemonService.createPokemon input
  end.

Definition publishPokemon (i : string) (pokemonData : PokemonInput) : M Pokemon :=
  match PokemonService.validateData pokemonData with
  | Some validationResult =>
      throw (BadRequestException (messages validationResult))
  | None =>
      idValidationResult <- PokemonService.validateId (Js.StringToNumber i);;
      match idValidationResult with
      | Some e => throw (BadRequestException (message e))
      | None =>
          let input := PokemonService.resolveData pokemonData in
          PokemonService.updatePokemon (Js.StringToNumber i) input
      end
  end.

Definition deletePokemon (i : string) : M Pokemon :=
  validationResult <- PokemonService.validateId (Js.StringToNumber i);;
  match validationResult with
  | Some e => throw (BadRequestException (message e))
  | None => PokemonService.deletePokemon (Js.StringToNumber i)
  end.

(** The routing table that the decorators of the controller declare. *)
Inductive Request :=
  | GET_pokemon (query : PokemonQuery)
  | POST_pokemon (body : PokemonInput)
  | PUT_pokemon (i : string) (body : PokemonInput)
  | DELETE_pokemon (i : string).

Inductive Reply :=
  | listing (p : PokemonService.Page)
  | record (r : Pokemon).

Definition route (req : Request) : M Reply :=
  match req with
  | GET_pokemon query => p <- getPokemons query;; ret (listing p)
  | POST_pokemon body => r <- createPokemon body;; ret (record r)
  | PUT_pokemon i body => r <- publishPokemon i body;; ret (record r)
  | DELETE_pokemon i => r <- deletePokemon i;; ret (record r)
  end.

End AppController.

(** ** Vocabulary of the properties *)

(** The store after the client has recorded the call [c]. *)
Definition logged (c : Call) (σ : Store) : Store := snd (Prisma.log c σ).

(** A string parameter that is present and not the empty string. *)
Definition non_empty (o : option string) : Prop :=
  exists s, o = Some s /\ s <> EmptyString.

(** A number whose value is an integer [z] with [0 <= z]. *)
Definition nonneg_integer (n : Js.number) : Prop :=
  Js.isInteger n = true /\ exists z, Js.toZ n = Some z /\ 0 <= z.

(** The id is a non-negative integer and the table has a row under it. *)
Definition id_exists (n : Js.number) (σ : Store) : Prop :=
  nonneg_integer n /\ exists z r, Js.toZ n = Some z /\ table σ !! z = Some r.

(** A mutating request whose body or whose id fails validation. *)
Definition rejected (req : AppController.Request) (σ : Store) : Prop :=
  match req with
  | AppController.GET_pokemon _ => False
  | AppController.POST_pokemon body => PokemonService.validateData body <> None
  | AppController.PUT_pokemon i body =>
      PokemonService.validateData body <> None
      \/ fst (PokemonService.validateId (Js.StringToNumber i) σ) <> Ok None
  | AppController.DELETE_pokemon i =>
      fst (PokemonService.validateId (Js.StringToNumber i) σ) <> Ok None
  end.

Definition when (b : bool) (e : Error) : list Error := if b then [e] else [].

Definition invalid_page_size : Exception :=
  BadRequestException (message "Invalid page size. Valid sizes: 10, 20, 50").

(** The four range bounds of a list query, and where each one ends up in
    the filter. *)
Inductive Bound := heightGte | heightLeq | weightGte | weightLeq.

Definition param (b : Bound) (q : PokemonQuery) : option string :=
  match b with
  | heightGte => q_heightGte q
  | heightLeq => q_heightLeq q
  | weightGte => q_weightGte q
  | weightLeq => q_weightLeq q
  end.

Definition translated (b : Bound) (w : WhereInput) : option Js.number :=
  match b with
  | heightGte => gte (w_height w)
  | heightLeq => lte (w_height w)
  | weightGte => gte (w_weight w)
  | weightLeq => lte (w_weight w)
  end.

(** Concrete requests and stores. *)
Definition query (orderBy orderDir page pageSize : option string) : PokemonQuery :=
  {| q_orderBy := orderBy; q_orderDir := orderDir; q_name := None;
     q_heightGte := None; q_heightLeq := None;
     q_weightGte := None; q_weightLeq := None;
     q_page := page; q_pageSize := pageSize |}.

Definition body (n : option string) (h w : JsValue.value) (i : option string)
  : PokemonInput :=
  {| in_name := n; in_height := h; in_weight := w; in_image := i |}.

Definition empty_store : Store := {| table := ∅; serial := 1; calls := [] |}.

(** A row as the validation lets it in: stored under its own id, with a
    name and an image, and with a height and a weight that are not
    negative. *)
Definition well_formed (k : Z) (r : Pokemon) : Prop :=
  id r = k /\ name r <> EmptyString /\ image r <> EmptyString
  /\ 0 <= height r /\ 0 <= weight r.

Definition valid_table (σ : Store) : Prop :=
  forall k r, table σ !! k = Some r -> well_formed k r.

(** The serial counter is above every id in use. *)
Definition serial_fresh (σ : Store) : Prop :=
  forall k r, table σ !! k = Some r -> k < serial σ.

(** The column that a bound constrains, and what the bound [z] asks of the
    value [v] of that column. *)
Definition bound_value (b : Bound) (r : Pokemon) : Z :=
  match b with
  | heightGte | heightLeq => height r
  | weightGte | weightLeq => weight r
  end.

Definition within (b : Bound) (z v : Z) : Prop :=
  match b with
  | heightGte | weightGte => z <= v
  | heightLeq | weightLeq => v <= z
  end.

(** A store with one row, and a valid body. *)
Definition pikachu : Pokemon :=
  {| id := 1; name := "pikachu"; height := 4; weight := 60; image := "http://img" |}.

Definition one_row_store : Store :=
  {| table := {[1 := pikachu]}; serial := 2; calls := [] |}.

Definition raichu_body : PokemonInput :=
  body (Some "raichu") (JsValue.num (Js.ofZ 8)) (JsValue.str "300")
    (Some "http://img/2").

(** A list query with a lower bound on the height. *)
Definition tall_query : PokemonQuery :=
  {| q_orderBy := None; q_orderDir := None; q_name := None;
     q_heightGte := Some "3"%string; q_heightLeq := None;
     q_weightGte := None; q_weightLeq := None;
     q_page := None; q_pageSize := None |}.

(** * Properties *)

(** ** Binary64 arithmetic on integers below [2 ^ 53] is exact *)

Module Binary64.

Lemma digits2_bounds (p : positive) :
  2 ^ (Z.pos (digits2_pos p) - 1) <= Z.pos p < 2 ^ Z.pos (digits2_pos p).
Proof.
  induction p as [p IH | p IH | ]; cbn [digits2_pos].
  - rewrite Pos2Z.inj_succ, Pos2Z.inj_xI.
    replace (Z.succ (Z.pos (digits2_pos p)) - 1) with (Z.succ (Z.pos (digits2_pos p) - 1)) by lia.
    rewrite !Z.pow_succ_r by lia.
    destruct IH as [IH1 IH2]. revert IH1 IH2.
    generalize (2 ^ (Z.pos (digits2_pos p) - 1)) (2 ^ Z.pos (digits2_pos p)). lia.
  - rewrite Pos2Z.inj_succ. change (Z.pos p~0) with (2 * Z.pos p).
    replace (Z.succ (Z.pos (digits2_pos p)) - 1) with (Z.succ (Z.pos (digits2_pos p) - 1)) by lia.
    rewrite !Z.pow_succ_r by lia.
    destruct IH as [IH1 IH2]. revert IH1 IH2.
    generalize (2 ^ (Z.pos (digits2_pos p) - 1)) (2 ^ Z.pos (digits2_pos p)). lia.
  - cbn. lia.
Qed.

Lemma digits_unique (v d d' : Z) :
  2 ^ (d - 1) <= v < 2 ^ d -> 2 ^ (d' - 1) <= v < 2 ^ d' ->
  0 < d -> 0 < d' -> d = d'.
Proof.
  intros [H1 H2] [H3 H4] Hd Hd'.
  assert (d - 1 < d') by (apply (Z.pow_lt_mono_r_iff 2); lia).
  assert (d' - 1 < d) by (apply (Z.pow_lt_mono_r_iff 2); lia).
  lia.
Qed.

Lemma Zdigits2_bounds (v : Z) :
  0 < v -> 0 < Zdigits2 v /\ 2 ^ (Zdigits2 v - 1) <= v < 2 ^ Zdigits2 v.
Proof.
  destruct v as [ | p | p]; try lia. intros _. cbn [Zdigits2].
  split; [lia | apply digits2_bounds].
Qed.

Lemma Zdigits2_shift (v k : Z) :
  0 < v -> 0 <= k -> Zdigits2 (v * 2 ^ k) = Zdigits2 v + k.
Proof.
  intros Hv Hk.
  assert (Hp : 0 < 2 ^ k) by (apply Z.pow_pos_nonneg; lia).
  destruct (Zdigits2_bounds v Hv) as [Hd [Hlo Hhi]].
  destruct (Zdigits2_bounds (v * 2 ^ k) ltac:(nia)) as [Hd' Hb].
  apply (digits_unique (v * 2 ^ k)); try lia; try assumption.
  replace (Zdigits2 v + k - 1) with (Zdigits2 v - 1 + k) by lia.
  rewrite !Z.pow_add_r by lia. nia.
Qed.


Lemma iter_pos_iter {A} (f : A -> A) (n : positive) (x : A) :
  SpecFloat.iter_pos f n x = Pos.iter f x n.
Proof.
  revert x. induction n as [n IH | n IH | ]; intros x; cbn [SpecFloat.iter_pos Pos.iter].
  - rewrite !IH, <- !Pos.iter_swap. reflexivity.
  - rewrite !IH. reflexivity.
  - reflexivity.
Qed.

Lemma shr_1_double (c : Z) :
  shr_1 (Build_shr_record (2 * c) false false) = Build_shr_record c false false.
Proof. destruct c; reflexivity. Qed.

Lemma iter_shr_exact (n : positive) :
  forall c : Z,
    SpecFloat.iter_pos shr_1 n (Build_shr_record (c * 2 ^ Z.pos n) false false)
    = Build_shr_record c false false.
Proof.
  intros c. rewrite iter_pos_iter. revert c.
  induction n as [ | n IH] using Pos.peano_ind; intros c.
  - cbn [Pos.iter]. replace (c * 2 ^ 1) with (2 * c) by lia. apply shr_1_double.
  - rewrite Pos.iter_succ, Pos2Z.inj_succ, Z.pow_succ_r by lia.
    replace (c * (2 * 2 ^ Z.pos n)) with (2 * c * 2 ^ Z.pos n) by lia.
    rewrite IH. apply shr_1_double.
Qed.

Lemma shr_exact (c e n : Z) :
  0 <= n ->
  shr (Build_shr_record (c * 2 ^ n) false false) e n
  = (Build_shr_record c false false, e + n).
Proof.
  intros Hn. destruct n as [ | p | p]; try lia; cbn [shr].
  - rewrite Z.pow_0_r, Z.mul_1_r, Z.add_0_r. reflexivity.
  - rewrite iter_shr_exact. reflexivity.
Qed.

Lemma shift_pos_value (m d : positive) :
  Z.pos (Pos.iter xO m d) = Z.pos m * 2 ^ Z.pos d.
Proof.
  induction d as [ | d IH] using Pos.peano_ind.
  - cbn [Pos.iter]. change (Z.pos m~0) with (2 * Z.pos m). lia.
  - rewrite Pos.iter_succ, Pos2Z.inj_succ, Z.pow_succ_r by lia.
    change (Z.pos (Pos.iter xO m d)~0) with (2 * Z.pos (Pos.iter xO m d)).
    rewrite IH. lia.
Qed.

Lemma fexp_normal (d : Z) :
  -1021 <= d -> fexp Js.prec Js.emax d = d - 53.
Proof. unfold fexp, emin, Js.prec, Js.emax. lia. Qed.

Lemma digits_small (v : Z) :
  0 < v < 2 ^ 53 -> 1 <= Zdigits2 v <= 53.
Proof.
  intros [Hv Hlt]. destruct (Zdigits2_bounds v Hv) as [Hd [Hlo _]].
  split; [lia | ].
  assert (Zdigits2 v - 1 < 53) by (apply (Z.pow_lt_mono_r_iff 2); lia).
  lia.
Qed.

Lemma round_aux_exact (s : bool) (v k : Z) :
  0 < v < 2 ^ 53 -> 0 <= k -> 53 <= Zdigits2 v + k ->
  binary_round_aux Js.prec Js.emax s (v * 2 ^ k) (- k) loc_Exact = Js.canon s v.
Proof.
  intros Hv Hk Hd.
  pose proof (digits_small v Hv) as Hds.
  set (d := Zdigits2 v) in *.
  assert (Hm : 0 < v * 2 ^ (53 - d)).
  { apply Z.mul_pos_pos; [lia | apply Z.pow_pos_nonneg; lia]. }
  unfold binary_round_aux, shr_fexp.
  rewrite Zdigits2_shift by lia. fold d.
  replace (d + k + - k) with d by lia.
  rewrite fexp_normal by lia.
  cbn [shr_record_of_loc].
  replace (v * 2 ^ k) with (v * 2 ^ (53 - d) * 2 ^ (d - 53 - - k)).
  2:{ rewrite <- Z.mul_assoc, <- Z.pow_add_r by lia. do 2 f_equal. lia. }
  rewrite shr_exact by lia.
  cbn [shr_m loc_of_shr_record round_nearest_even shr_record_of_loc].
  rewrite Zdigits2_shift by lia. fold d.
  replace (d + (53 - d) + (- k + (d - 53 - - k))) with d by lia.
  rewrite fexp_normal by lia.
  replace (d - 53 - (- k + (d - 53 - - k))) with 0 by lia.
  cbn [shr shr_m].
  unfold Js.canon. fold d.
  destruct (v * 2 ^ (53 - d)) as [ | m | m] eqn:Em; try lia.
  replace (- k + (d - 53 - - k) <=? Js.emax - Js.prec) with true.
  2:{ symmetry. apply Z.leb_le. unfold Js.emax, Js.prec. lia. }
  cbn [Z.to_pos]. f_equal. lia.
Qed.

Lemma round_exact (s : bool) (m : positive) (v k : Z) :
  Z.pos m = v * 2 ^ k -> 0 < v < 2 ^ 53 -> 0 <= k ->
  binary_round Js.prec Js.emax s m (- k) = Js.canon s v.
Proof.
  intros Em Hv Hk.
  pose proof (digits_small v Hv) as Hds.
  pose proof (Zdigits2_shift v k ltac:(lia) Hk) as Hdig.
  unfold binary_round, shl_align.
  change (Z.pos (digits2_pos m)) with (Zdigits2 (Z.pos m)).
  rewrite Em, Hdig.
  replace (Zdigits2 v + k + - k) with (Zdigits2 v) by lia.
  rewrite fexp_normal by lia.
  destruct (Zdigits2 v - 53 - - k) as [ | n | n] eqn:En.
  - rewrite Em. apply round_aux_exact; lia.
  - rewrite Em. apply round_aux_exact; lia.
  - rewrite shift_pos_value, Em.
    replace (v * 2 ^ k * 2 ^ Z.pos n) with (v * 2 ^ (53 - Zdigits2 v)).
    2:{ rewrite <- Z.mul_assoc, <- Z.pow_add_r by lia. do 2 f_equal. lia. }
    replace (Zdigits2 v - 53) with (- (53 - Zdigits2 v)) by lia.
    apply round_aux_exact; lia.
Qed.

Lemma normalize_exact (v k : Z) :
  0 < v < 2 ^ 53 -> 0 <= k ->
  binary_normalize Js.prec Js.emax (v * 2 ^ k) (- k) false = Js.canon false v.
Proof.
  intros Hv Hk.
  assert (Hp : 0 < 2 ^ k) by (apply Z.pow_pos_nonneg; lia).
  destruct (v * 2 ^ k) as [ | m | m] eqn:Em; try nia.
  cbn [binary_normalize]. apply round_exact; auto.
Qed.

Lemma ofZ_canon (v : Z) : 0 < v < 2 ^ 53 -> Js.ofZ v = Js.canon false v.
Proof.
  intros Hv. unfold Js.ofZ.
  replace v with (v * 2 ^ 0) at 1 by (rewrite Z.pow_0_r; lia).
  change 0 with (- 0) at 2. apply normalize_exact; lia.
Qed.

Lemma ofZ_neg (v : Z) : 0 < v < 2 ^ 53 -> Js.ofZ (- v) = Js.canon true v.
Proof.
  intros Hv. unfold Js.ofZ.
  destruct v as [ | m | m]; try lia. cbn [Z.opp binary_normalize].
  change 0 with (- 0). apply round_exact; [rewrite Z.pow_0_r | | ]; lia.
Qed.

Lemma canon_mantissa (v : Z) :
  0 < v < 2 ^ 53 ->
  Z.pos (Z.to_pos (v * 2 ^ (53 - Zdigits2 v))) = v * 2 ^ (53 - Zdigits2 v).
Proof.
  intros Hv. pose proof (digits_small v Hv).
  apply Z2Pos.id, Z.mul_pos_pos; [lia | apply Z.pow_pos_nonneg; lia].
Qed.

Lemma canon_digits (v : Z) :
  0 < v < 2 ^ 53 ->
  Zdigits2 (Z.pos (Z.to_pos (v * 2 ^ (53 - Zdigits2 v)))) = 53.
Proof.
  intros Hv. pose proof (digits_small v Hv).
  rewrite canon_mantissa, Zdigits2_shift by lia. lia.
Qed.

Lemma digits_mul (a b : Z) :
  0 < a -> 0 < b ->
  Zdigits2 a + Zdigits2 b - 1 <= Zdigits2 (a * b) <= Zdigits2 a + Zdigits2 b.
Proof.
  intros Ha Hb.
  destruct (Zdigits2_bounds a Ha) as [Hda [Ha1 Ha2]].
  destruct (Zdigits2_bounds b Hb) as [Hdb [Hb1 Hb2]].
  destruct (Zdigits2_bounds (a * b) ltac:(nia)) as [Hd [H1 H2]].
  assert (Hlo : 2 ^ (Zdigits2 a - 1 + (Zdigits2 b - 1)) <= a * b).
  { rewrite Z.pow_add_r by lia.
    apply Z.mul_le_mono_nonneg; try assumption; apply Z.pow_nonneg; lia. }
  assert (Hhi : a * b < 2 ^ (Zdigits2 a + Zdigits2 b)).
  { rewrite Z.pow_add_r by lia. apply Z.mul_lt_mono_nonneg; lia. }
  assert (Zdigits2 a - 1 + (Zdigits2 b - 1) < Zdigits2 (a * b))
    by (apply (Z.pow_lt_mono_r_iff 2); lia).
  assert (Zdigits2 (a * b) - 1 < Zdigits2 a + Zdigits2 b)
    by (apply (Z.pow_lt_mono_r_iff 2); lia).
  lia.
Qed.

Lemma factors_small (a b : Z) :
  0 < a -> 0 < b -> a * b < 2 ^ 53 -> a < 2 ^ 53 /\ b < 2 ^ 53.
Proof. intros Ha Hb Hab. split; nia. Qed.

Lemma mul_exact (sx sy : bool) (a b : Z) :
  0 < a -> 0 < b -> a * b < 2 ^ 53 ->
  Js.mul (Js.canon sx a) (Js.canon sy b) = Js.canon (xorb sx sy) (a * b).
Proof.
  intros Ha Hb Hab.
  destruct (factors_small a b Ha Hb Hab) as [Ha' Hb'].
  pose proof (digits_small a ltac:(lia)) as Hda.
  pose proof (digits_small b ltac:(lia)) as Hdb.
  pose proof (digits_mul a b Ha Hb) as Hd.
  unfold Js.mul, Js.canon at 1 2. cbn [SFmul].
  rewrite Pos2Z.inj_mul, !canon_mantissa by lia.
  replace (a * 2 ^ (53 - Zdigits2 a) * (b * 2 ^ (53 - Zdigits2 b)))
    with (a * b * 2 ^ (106 - Zdigits2 a - Zdigits2 b)).
  2:{ replace (106 - Zdigits2 a - Zdigits2 b)
        with (53 - Zdigits2 a + (53 - Zdigits2 b)) by lia.
      rewrite Z.pow_add_r by lia. ring. }
  replace (Zdigits2 a - 53 + (Zdigits2 b - 53))
    with (- (106 - Zdigits2 a - Zdigits2 b)) by lia.
  apply round_aux_exact; nia.
Qed.

Lemma shl_align_value (m : positive) (e e' : Z) :
  e' <= e -> Z.pos (fst (shl_align m e e')) = Z.pos m * 2 ^ (e - e').
Proof.
  intros He. unfold shl_align.
  destruct (e' - e) as [ | d | d] eqn:Ed; try lia; cbn [fst].
  - replace (e - e') with 0 by lia. rewrite Z.pow_0_r. lia.
  - rewrite shift_pos_value. do 2 f_equal. lia.
Qed.

Lemma canon_scaled (v e : Z) :
  0 < v < 2 ^ 53 -> e <= Zdigits2 v - 53 ->
  Z.pos (Z.to_pos (v * 2 ^ (53 - Zdigits2 v))) * 2 ^ (Zdigits2 v - 53 - e)
  = v * 2 ^ (- e).
Proof.
  intros Hv He. pose proof (digits_small v Hv).
  rewrite canon_mantissa, <- Z.mul_assoc, <- Z.pow_add_r by lia.
  do 2 f_equal. lia.
Qed.

Lemma normalize_int (z k : Z) :
  0 <= z < 2 ^ 53 -> 0 <= k ->
  binary_normalize Js.prec Js.emax (z * 2 ^ k) (- k) false = Js.ofZ z.
Proof.
  intros Hz Hk. destruct (Z.eq_dec z 0) as [-> | Hnz].
  - reflexivity.
  - rewrite normalize_exact, ofZ_canon by lia. reflexivity.
Qed.

Lemma sub_exact (a b : Z) :
  0 < b -> b <= a -> a < 2 ^ 53 ->
  Js.sub (Js.canon false a) (Js.canon false b) = Js.ofZ (a - b).
Proof.
  intros Hb Hba Ha.
  pose proof (digits_small a ltac:(lia)) as Hda.
  pose proof (digits_small b ltac:(lia)) as Hdb.
  unfold Js.sub, Js.canon. cbn [SFsub cond_Zopp].
  set (ez := Z.min (Zdigits2 a - 53) (Zdigits2 b - 53)).
  rewrite !shl_align_value by lia.
  rewrite !canon_scaled by lia.
  rewrite <- Z.mul_sub_distr_r.
  replace ez with (- - ez) at 2 by lia.
  apply normalize_int; lia.
Qed.

Lemma add_exact (a b : Z) :
  0 < a -> 0 < b -> a + b < 2 ^ 53 ->
  Js.add (Js.canon false a) (Js.canon false b) = Js.ofZ (a + b).
Proof.
  intros Ha Hb Hab.
  pose proof (digits_small a ltac:(lia)) as Hda.
  pose proof (digits_small b ltac:(lia)) as Hdb.
  unfold Js.add, Js.canon. cbn [SFadd cond_Zopp].
  set (ez := Z.min (Zdigits2 a - 53) (Zdigits2 b - 53)).
  rewrite !shl_align_value by lia.
  rewrite !canon_scaled by lia.
  rewrite <- Z.mul_add_distr_r.
  replace ez with (- - ez) at 2 by lia.
  apply normalize_int; lia.
Qed.

Lemma div_core_exact (mx my : positive) (ex ey q : Z) :
  Zdigits2 (Z.pos mx) = 53 -> Zdigits2 (Z.pos my) = 53 ->
  -1021 <= ex - ey ->
  Z.pos mx * 2 ^ 53 = Z.pos my * q ->
  SFdiv_core_binary Js.prec Js.emax (Z.pos mx) ex (Z.pos my) ey
  = (q, ex - ey - 53, loc_Exact).
Proof.
  intros Hx Hy He Hq. unfold SFdiv_core_binary.
  rewrite Hx, Hy.
  replace (53 + ex - (53 + ey)) with (ex - ey) by lia.
  rewrite fexp_normal by lia.
  replace (Z.min (ex - ey - 53) (ex - ey)) with (ex - ey - 53) by lia.
  replace (ex - ey - (ex - ey - 53)) with 53 by lia.
  cbv iota.
  rewrite Z.shiftl_mul_pow2, Hq by lia.
  assert (Hd : Z.div_eucl (Z.pos my * q) (Z.pos my)
               = (Z.pos my * q / Z.pos my, (Z.pos my * q) mod Z.pos my)).
  { unfold Z.div, Z.modulo. destruct (Z.div_eucl _ _). reflexivity. }
  rewrite Hd, (Z.mul_comm (Z.pos my) q), Z.div_mul, Z.mod_mul by lia.
  unfold new_location, new_location_even, new_location_odd.
  destruct (Z.even (Z.pos my)); reflexivity.
Qed.

Lemma div_exact (sx sy : bool) (a b : Z) :
  0 < a -> 0 < b -> a * b < 2 ^ 53 ->
  Js.div (Js.canon sx (a * b)) (Js.canon sy b) = Js.canon (xorb sx sy) a.
Proof.
  intros Ha Hb Hab.
  destruct (factors_small a b Ha Hb Hab) as [Ha' Hb'].
  pose proof (digits_small a ltac:(lia)) as Hda.
  pose proof (digits_small b ltac:(lia)) as Hdb.
  pose proof (digits_small (a * b) ltac:(nia)) as Hdab.
  pose proof (digits_mul a b Ha Hb) as Hd.
  unfold Js.div, Js.canon at 1 2. cbn [SFdiv].
  rewrite (div_core_exact _ _ _ _ (a * 2 ^ (53 - Zdigits2 (a * b) + Zdigits2 b))).
  - replace (Zdigits2 (a * b) - 53 - (Zdigits2 b - 53) - 53)
      with (- (53 - Zdigits2 (a * b) + Zdigits2 b)) by lia.
    apply round_aux_exact; lia.
  - apply canon_digits; nia.
  - apply canon_digits; lia.
  - lia.
  - rewrite !canon_mantissa by nia.
    replace (a * b * 2 ^ (53 - Zdigits2 (a * b)) * 2 ^ 53)
      with (a * b * (2 ^ (53 - Zdigits2 (a * b)) * 2 ^ 53)) by ring.
    replace (b * 2 ^ (53 - Zdigits2 b) * (a * 2 ^ (53 - Zdigits2 (a * b) + Zdigits2 b)))
      with (a * b * (2 ^ (53 - Zdigits2 b) * 2 ^ (53 - Zdigits2 (a * b) + Zdigits2 b))) by ring.
    rewrite <- !Z.pow_add_r by lia. do 2 f_equal. lia.
Qed.

(** Arithmetic on integers below [2 ^ 53] is exact. *)

Lemma ofZ_sub (a b : Z) :
  0 <= b -> b <= a -> a < 2 ^ 53 -> Js.sub (Js.ofZ a) (Js.ofZ b) = Js.ofZ (a - b).
Proof.
  intros Hb Hba Ha. destruct (Z.eq_dec b 0) as [-> | Hnb].
  - rewrite Z.sub_0_r. destruct (Z.eq_dec a 0) as [-> | Hna]; [reflexivity | ].
    rewrite (ofZ_canon a) by lia. reflexivity.
  - rewrite (ofZ_canon a), (ofZ_canon b) by lia. apply sub_exact; lia.
Qed.

Lemma ofZ_add (a b : Z) :
  0 <= a -> 0 <= b -> a + b < 2 ^ 53 -> Js.add (Js.ofZ a) (Js.ofZ b) = Js.ofZ (a + b).
Proof.
  intros Ha Hb Hab. destruct (Z.eq_dec a 0) as [-> | Hna].
  - destruct (Z.eq_dec b 0) as [-> | Hnb]; [reflexivity | ].
    rewrite Z.add_0_l, (ofZ_canon b) by lia. reflexivity.
  - destruct (Z.eq_dec b 0) as [-> | Hnb].
    + rewrite Z.add_0_r, (ofZ_canon a) by lia. reflexivity.
    + rewrite (ofZ_canon a), (ofZ_canon b) by lia. apply add_exact; lia.
Qed.

Lemma ofZ_mul (a b : Z) :
  0 <= a < 2 ^ 53 -> 0 <= b < 2 ^ 53 -> a * b < 2 ^ 53 ->
  Js.mul (Js.ofZ a) (Js.ofZ b) = Js.ofZ (a * b).
Proof.
  intros Ha Hb Hab. destruct (Z.eq_dec a 0) as [-> | Hna].
  - destruct (Z.eq_dec b 0) as [-> | Hnb]; [reflexivity | ].
    rewrite Z.mul_0_l, (ofZ_canon b) by lia. reflexivity.
  - destruct (Z.eq_dec b 0) as [-> | Hnb].
    + rewrite Z.mul_0_r, (ofZ_canon a) by lia. reflexivity.
    + rewrite (ofZ_canon a), (ofZ_canon b), (ofZ_canon (a * b)) by nia.
      apply mul_exact; lia.
Qed.

Lemma ofZ_div (a b : Z) :
  0 <= a -> 0 < b < 2 ^ 53 -> a * b < 2 ^ 53 ->
  Js.div (Js.ofZ (a * b)) (Js.ofZ b) = Js.ofZ a.
Proof.
  intros Ha Hb Hab. destruct (Z.eq_dec a 0) as [-> | Hna].
  - rewrite Z.mul_0_l, (ofZ_canon b) by lia. reflexivity.
  - destruct (factors_small a b ltac:(lia) ltac:(lia) Hab).
    rewrite (ofZ_canon a), (ofZ_canon b), (ofZ_canon (a * b)) by nia.
    apply div_exact; lia.
Qed.

End Binary64.

Import Binary64.

(** ** Numbers read from strings *)

Example StringToNumber_empty : Js.StringToNumber EmptyString = Js.pzero.
Proof. reflexivity. Qed.

Example StringToNumber_blank : Js.StringToNumber "  " = Js.pzero.
Proof. reflexivity. Qed.

Example StringToNumber_abc : Js.StringToNumber "abc" = Js.NaN.
Proof. reflexivity. Qed.

Example StringToNumber_12px : Js.StringToNumber "12px" = Js.NaN.
Proof. reflexivity. Qed.

Example StringToNumber_12 : Js.StringToNumber " 12 " = Js.ofZ 12.
Proof. vm_compute. reflexivity. Qed.

Example StringToNumber_minus_1 : Js.StringToNumber "-1" = Js.ofZ (-1).
Proof. vm_compute. reflexivity. Qed.

Example StringToNumber_hex : Js.StringToNumber "0x1F" = Js.ofZ 31.
Proof. vm_compute. reflexivity. Qed.

Example StringToNumber_1e3 : Js.StringToNumber "1e3" = Js.ofZ 1000.
Proof. vm_compute. reflexivity. Qed.

(** 5.5 is [11 * 2 ^ -1]; 0.1 is rounded to [0x1.999999999999ap-4]. *)
Example StringToNumber_5_5 :
  Js.StringToNumber "5.5" = S754_finite false (11 * 2 ^ 49) (-50).
Proof. vm_compute. reflexivity. Qed.

Example StringToNumber_0_1 :
  Js.StringToNumber "0.1" = S754_finite false 7205759403792794 (-56).
Proof. vm_compute. reflexivity. Qed.

(** Integers above [2 ^ 53] are rounded, and large literals overflow. *)
Example StringToNumber_rounds :
  Js.StringToNumber "9007199254740993" = Js.ofZ 9007199254740992.
Proof. vm_compute. reflexivity. Qed.

Example StringToNumber_overflow : Js.StringToNumber "1e309" = Js.Infinity.
Proof. vm_compute. reflexivity. Qed.

(** ** Numbers that are integers *)

Lemma isInteger_canon (s : bool) (v : Z) :
  0 < v < 2 ^ 53 -> Js.isInteger (Js.canon s v) = true.
Proof.
  intros Hv. pose proof (digits_small v Hv) as Hd.
  unfold Js.canon, Js.isInteger.
  destruct (Zdigits2 v - 53) as [ | p | p] eqn:Ep; try reflexivity.
  rewrite canon_mantissa by lia.
  replace (53 - Zdigits2 v) with (Z.pos p) by lia.
  rewrite Z.mod_mul by (apply Z.pow_nonzero; lia). reflexivity.
Qed.

Lemma toZ_canon (s : bool) (v : Z) :
  0 < v < 2 ^ 53 -> Js.toZ (Js.canon s v) = Some (if s then - v else v).
Proof.
  intros Hv. pose proof (digits_small v Hv) as Hd.
  unfold Js.canon, Js.toZ. rewrite canon_mantissa by lia.
  destruct (Zdigits2 v - 53) as [ | p | p] eqn:Ep; try lia.
  - replace (53 - Zdigits2 v) with 0 by lia.
    rewrite !Z.pow_0_r, !Z.mul_1_r. reflexivity.
  - replace (53 - Zdigits2 v) with (Z.pos p) by lia.
    rewrite Z.div_mul by (apply Z.pow_nonzero; lia). reflexivity.
Qed.

Lemma isInteger_ofZ (v : Z) : - 2 ^ 53 < v < 2 ^ 53 -> Js.isInteger (Js.ofZ v) = true.
Proof.
  intros Hv. destruct (Z.lt_trichotomy v 0) as [Hn | [-> | Hp]].
  - replace v with (- - v) by lia. rewrite ofZ_neg by lia. apply isInteger_canon; lia.
  - reflexivity.
  - rewrite ofZ_canon by lia. apply isInteger_canon; lia.
Qed.

Lemma toZ_ofZ (v : Z) : - 2 ^ 53 < v < 2 ^ 53 -> Js.toZ (Js.ofZ v) = Some v.
Proof.
  intros Hv. destruct (Z.lt_trichotomy v 0) as [Hn | [-> | Hp]].
  - replace v with (- - v) at 1 by lia. rewrite ofZ_neg, toZ_canon by lia. f_equal. lia.
  - reflexivity.
  - rewrite ofZ_canon, toZ_canon by lia. reflexivity.
Qed.

Lemma int_ofZ (v : Z) : - 2 ^ 53 < v < 2 ^ 53 -> Prisma.int (Js.ofZ v) = Some v.
Proof.
  intros Hv. unfold Prisma.int. rewrite isInteger_ofZ, toZ_ofZ by lia. reflexivity.
Qed.

Lemma lt_canon_one (v : Z) :
  0 < v < 2 ^ 53 -> Js.lt (Js.canon false v) (Js.ofZ 1) = false.
Proof.
  intros Hv. pose proof (digits_small v Hv) as Hd.
  destruct (Zdigits2_bounds v ltac:(lia)) as [_ Hb].
  change (Js.ofZ 1) with (S754_finite false 4503599627370496 (-52)).
  unfold Js.lt, SFltb, Js.canon. cbn [SFcompare].
  destruct (Z.compare_spec (Zdigits2 v - 53) (-52)) as [He | He | He]; try reflexivity; try lia.
  replace (Zdigits2 v) with 1 in * by lia.
  assert (v = 1) by (change (2 ^ (1 - 1)) with 1 in Hb; change (2 ^ 1) with 2 in Hb; lia).
  subst v. reflexivity.
Qed.

Lemma validPage_ofZ (z : Z) :
  - 2 ^ 53 < z < 2 ^ 53 ->
  PokemonService.validPage (Some (Js.ofZ z)) = Js.ofZ (Z.max 1 z).
Proof.
  intros Hz. unfold PokemonService.validPage.
  destruct (Z.lt_trichotomy z 0) as [Hn | [-> | Hp]].
  - replace z with (- - z) at 1 2 by lia. rewrite ofZ_neg by lia.
    replace (Z.max 1 z) with 1 by lia. reflexivity.
  - reflexivity.
  - rewrite ofZ_canon by lia.
    rewrite lt_canon_one by lia. cbn [Js.canon Js.truthy negb orb].
    replace (Z.max 1 z) with z by lia. rewrite ofZ_canon by lia. reflexivity.
Qed.


Lemma finite_integer_pos (s : bool) (m : positive) (e a : Z) :
  Js.isInteger (S754_finite s m e) = true ->
  Js.toZ (S754_finite s m e) = Some (if s then - a else a) -> 0 < a.
Proof.
  unfold Js.isInteger, Js.toZ. intros Hi Ht.
  assert (Ha : a = match e with Z.neg p => Z.pos m / 2 ^ Z.pos p | _ => Z.pos m * 2 ^ e end).
  { destruct s; injection Ht; lia. }
  subst a. destruct e as [ | p | p].
  - lia.
  - apply Z.mul_pos_pos; [lia | apply Z.pow_pos_nonneg; lia].
  - apply Z.eqb_eq in Hi.
    assert (Hp : 0 < 2 ^ Z.pos p) by (apply Z.pow_pos_nonneg; lia).
    pose proof (Z.div_mod (Z.pos m) (2 ^ Z.pos p) ltac:(lia)) as Hdm.
    rewrite Hi in Hdm. nia.
Qed.

Lemma lt_zero_spec (n : Js.number) :
  Js.isInteger n = true ->
  (Js.lt n Js.pzero = false <-> exists z, Js.toZ n = Some z /\ 0 <= z).
Proof.
  intros Hi. destruct n as [s | s | | s m e]; try discriminate Hi.
  - split; [intros _; exists 0; split; [reflexivity | lia] | reflexivity].
  - pose proof (finite_integer_pos s m e _ Hi eq_refl) as Hpos.
    unfold Js.toZ in *. 
    set (a := match e with Z.neg p => Z.pos m / 2 ^ Z.pos p | _ => Z.pos m * 2 ^ e end) in *.
    destruct s; cbn.
    + split; [discriminate | intros (z & Hz & Hnn); injection Hz; lia].
    + split; [intros _; exists a; split; [reflexivity | lia] | reflexivity].
Qed.

Lemma ge_zero_spec (n : Js.number) :
  Js.isInteger n = true ->
  (Js.ge n Js.pzero = true <-> exists z, Js.toZ n = Some z /\ 0 <= z).
Proof.
  intros Hi. rewrite <- lt_zero_spec by assumption.
  destruct n as [s | s | | s m e]; try discriminate Hi.
  - split; reflexivity.
  - destruct s; cbn; split; congruence.
Qed.


(** ** The id check *)

Lemma int_integer (n : Js.number) :
  Js.isInteger n = true -> exists z, Js.toZ n = Some z /\ Prisma.int n = Some z.
Proof.
  intros Hi. unfold Prisma.int. rewrite Hi.
  destruct n as [s | s | | s m e]; try discriminate Hi; cbn [Js.toZ]; eauto.
Qed.

Lemma findUnique_integer (n : Js.number) (z : Z) (σ : Store) :
  Prisma.int n = Some z ->
  Prisma.findUnique n σ = (Ok (table σ !! z), logged (FindUnique n) σ).
Proof.
  intros Hn. unfold Prisma.findUnique, bind, Prisma.log, Prisma.get_table, logged.
  cbn. rewrite Hn. reflexivity.
Qed.

Lemma validateId_cases (n : Js.number) (σ : Store) :
  (Js.isInteger n && Js.ge n Js.pzero = false
   /\ PokemonService.validateId n σ = (Ok (Some "Invalid id"%string), σ))
  \/ (exists z, Js.isInteger n && Js.ge n Js.pzero = true
        /\ Js.toZ n = Some z
        /\ PokemonService.validateId n σ
           = (Ok (match table σ !! z with
                  | Some _ => None
                  | None => Some "Invalid id"%string
                  end), logged (FindUnique n) σ)).
Proof.
  unfold PokemonService.validateId, PokemonService.getPokemon.
  destruct (Js.isInteger n && Js.ge n Js.pzero) eqn:Hc.
  - right. apply andb_true_iff in Hc as [Hi _].
    destruct (int_integer n Hi) as (z & Hz & Hint). exists z.
    split; [reflexivity | split; [assumption | ]].
    unfold bind. rewrite (findUnique_integer n z σ Hint).
    destruct (table σ !! z); reflexivity.
  - left. split; reflexivity.
Qed.


Lemma id_exists_iff (n : Js.number) (σ : Store) :
  id_exists n σ <->
  exists z r, Js.isInteger n && Js.ge n Js.pzero = true
              /\ Js.toZ n = Some z /\ table σ !! z = Some r.
Proof.
  unfold id_exists, nonneg_integer. split.
  - intros [[Hi Hnn] (z & r & Hz & Hr)]. exists z, r.
    rewrite Hi, (proj2 (ge_zero_spec n Hi) Hnn). auto.
  - intros (z & r & Hc & Hz & Hr). apply andb_true_iff in Hc as [Hi Hge].
    split; [split; [assumption | apply ge_zero_spec; assumption] | eauto].
Qed.

Lemma validateId_result (n : Js.number) (σ : Store) :
  (id_exists n σ /\ fst (PokemonService.validateId n σ) = Ok None)
  \/ (~ id_exists n σ
      /\ fst (PokemonService.validateId n σ) = Ok (Some "Invalid id"%string)).
Proof.
  rewrite id_exists_iff.
  destruct (validateId_cases n σ) as [[Hc ->] | (z & Hc & Hz & ->)]; cbn [fst].
  - right. split; [ | reflexivity].
    intros (z & r & Hc' & _). congruence.
  - destruct (table σ !! z) as [r | ] eqn:Hr.
    + left. split; [exists z, r; auto | reflexivity].
    + right. split; [ | reflexivity].
      intros (z' & r' & _ & Hz' & Hr'). congruence.
Qed.

Lemma validateId_store (n : Js.number) (σ : Store) :
  table (snd (PokemonService.validateId n σ)) = table σ
  /\ serial (snd (PokemonService.validateId n σ)) = serial σ
  /\ exists l, calls (snd (PokemonService.validateId n σ)) = calls σ ++ l
               /\ Forall (fun c => is_mutation c = false) l.
Proof.
  destruct (validateId_cases n σ) as [[_ ->] | (z & _ & _ & ->)]; cbn.
  - repeat split. exists []. rewrite app_nil_r. auto.
  - repeat split. exists [FindUnique n]. auto.
Qed.

Lemma deletePokemon_invalid (i : string) (σ : Store) (e : Error) :
  fst (PokemonService.validateId (Js.StringToNumber i) σ) = Ok (Some e) ->
  AppController.deletePokemon i σ
  = (Throw (BadRequestException (message e)),
     snd (PokemonService.validateId (Js.StringToNumber i) σ)).
Proof.
  intros H. unfold AppController.deletePokemon, bind.
  destruct (PokemonService.validateId (Js.StringToNumber i) σ) as [r σ'].
  cbn in H. subst r. reflexivity.
Qed.

Lemma publishPokemon_invalid_body (i : string) (d : PokemonInput) (σ : Store)
  (errs : list Error) :
  PokemonService.validateData d = Some errs ->
  AppController.publishPokemon i d σ
  = (Throw (BadRequestException (messages errs)), σ).
Proof. intros H. unfold AppController.publishPokemon. rewrite H. reflexivity. Qed.

Lemma publishPokemon_invalid_id (i : string) (d : PokemonInput) (σ : Store)
  (e : Error) :
  PokemonService.validateData d = None ->
  fst (PokemonService.validateId (Js.StringToNumber i) σ) = Ok (Some e) ->
  AppController.publishPokemon i d σ
  = (Throw (BadRequestException (message e)),
     snd (PokemonService.validateId (Js.StringToNumber i) σ)).
Proof.
  intros Hd H. unfold AppController.publishPokemon, bind. rewrite Hd.
  destruct (PokemonService.validateId (Js.StringToNumber i) σ) as [r σ'].
  cbn in H. subst r. reflexivity.
Qed.

Lemma createPokemon_invalid_body (d : PokemonInput) (σ : Store)
  (errs : list Error) :
  PokemonService.validateData d = Some errs ->
  AppController.createPokemon d σ
  = (Throw (BadRequestException (messages errs)), σ).
Proof. intros H. unfold AppController.createPokemon. rewrite H. reflexivity. Qed.

Lemma validateId_failed (n : Js.number) (σ : Store) :
  fst (PokemonService.validateId n σ) <> Ok None ->
  fst (PokemonService.validateId n σ) = Ok (Some "Invalid id"%string).
Proof.
  intros H. destruct (validateId_result n σ) as [[_ H'] | [_ H']]; congruence.
Qed.

(** C7: [validateId] returns null exactly when the id is a non-negative
    integer under which the table has a row, and the error 'Invalid id' in
    every other case; DELETE, and PUT with a valid body, then fail with that
    error. *)
Theorem validateId_spec (n : Js.number) (σ : Store) :
  (fst (PokemonService.validateId n σ) = Ok None <-> id_exists n σ)
  /\ (~ id_exists n σ ->
      fst (PokemonService.validateId n σ) = Ok (Some "Invalid id"%string))
  /\ (forall i : string,
        n = Js.StringToNumber i -> ~ id_exists n σ ->
        fst (AppController.deletePokemon i σ)
        = Throw (BadRequestException (message "Invalid id"))
        /\ forall d : PokemonInput,
             PokemonService.validateData d = None ->
             fst (AppController.publishPokemon i d σ)
             = Throw (BadRequestException (message "Invalid id"))).
Proof.
  assert (Hfail : ~ id_exists n σ ->
      fst (PokemonService.validateId n σ) = Ok (Some "Invalid id"%string)).
  { intros Hn. destruct (validateId_result n σ) as [[He _] | [_ H]]; tauto. }
  split; [ | split; [exact Hfail | ]].
  - destruct (validateId_result n σ) as [[He H] | [Hn H]]; rewrite H; split;
      (tauto || discriminate).
  - intros i -> Hn. specialize (Hfail Hn). split.
    + rewrite (deletePokemon_invalid i σ _ Hfail). reflexivity.
    + intros d Hd. rewrite (publishPokemon_invalid_id i d σ _ Hd Hfail). reflexivity.
Qed.


(** C3: a POST, PUT or DELETE request whose body or whose id fails
    validation is answered with a bad request, and the table is what it was:
    the client received no create, update or delete call. *)
Theorem rejected_request_no_mutation (req : AppController.Request) (σ : Store) :
  rejected req σ ->
  exists r σ' l,
    AppController.route req σ = (Throw (BadRequestException r), σ')
    /\ table σ' = table σ
    /\ calls σ' = calls σ ++ l
    /\ Forall (fun c => is_mutation c = false) l.
Proof.
  assert (Hsame : forall r, exists r' σ' l,
    (Throw (BadRequestException r), σ) = (Throw (A := AppController.Reply) (BadRequestException r'), σ')
    /\ table σ' = table σ /\ calls σ' = calls σ ++ l
    /\ Forall (fun c => is_mutation c = false) l).
  { intros r. exists r, σ, []. rewrite app_nil_r. auto. }
  assert (Hid : forall i, exists r' σ' l,
    (Throw (BadRequestException (message "Invalid id")),
     snd (PokemonService.validateId (Js.StringToNumber i) σ))
    = (Throw (A := AppController.Reply) (BadRequestException r'), σ')
    /\ table σ' = table σ /\ calls σ' = calls σ ++ l
    /\ Forall (fun c => is_mutation c = false) l).
  { intros i.
    destruct (validateId_store (Js.StringToNumber i) σ) as (Ht & _ & l & Hl & Hm).
    eexists _, _, l. split; [reflexivity | auto]. }
  destruct req as [q | d | i d | i]; cbn [rejected AppController.route]; intros H.
  - contradiction.
  - destruct (PokemonService.validateData d) as [errs | ] eqn:Hd; [ | congruence].
    unfold bind. rewrite (createPokemon_invalid_body d σ errs Hd). apply Hsame.
  - destruct (PokemonService.validateData d) as [errs | ] eqn:Hd.
    + unfold bind. rewrite (publishPokemon_invalid_body i d σ errs Hd). apply Hsame.
    + destruct H as [H | H]; [congruence | ].
      apply validateId_failed in H.
      unfold bind. rewrite (publishPokemon_invalid_id i d σ _ Hd H). apply Hid.
  - apply validateId_failed in H.
    unfold bind. rewrite (deletePokemon_invalid i σ _ H). apply Hid.
Qed.


(** ** Validation of a body *)

Lemma falsy_spec (o : option string) : falsy o = false <-> non_empty o.
Proof.
  unfold falsy, non_empty. destruct o as [s | ].
  - rewrite String.eqb_neq. split.
    + intros H. exists s. auto.
    + intros (s' & [= <-] & H). exact H.
  - split; [discriminate | intros (s & Hs & _); discriminate].
Qed.

Lemma invalid_number_spec (n : Js.number) :
  negb (Js.isInteger n) || Js.lt n Js.pzero = false <-> nonneg_integer n.
Proof.
  unfold nonneg_integer. rewrite orb_false_iff, negb_false_iff. split.
  - intros [Hi Hlt]. split; [assumption | apply lt_zero_spec; assumption].
  - intros [Hi Hz]. split; [assumption | apply lt_zero_spec; assumption].
Qed.


Lemma In_when (b : bool) (e x : Error) : In x (when b e) <-> x = e /\ b = true.
Proof.
  destruct b; cbn.
  - split; [intros [-> | []]; auto | intros [-> _]; auto].
  - split; [intros [] | intros [_ H]; discriminate].
Qed.

Lemma validateData_errors (d : PokemonInput) :
  let errors :=
    when (falsy (in_name d)) "Invalid name"
    ++ when (negb (Js.isInteger (JsValue.ToNumber (in_height d)))
             || Js.lt (JsValue.ToNumber (in_height d)) Js.pzero) "Invalid height"
    ++ when (negb (Js.isInteger (JsValue.ToNumber (in_weight d)))
             || Js.lt (JsValue.ToNumber (in_weight d)) Js.pzero) "Invalid weight"
    ++ when (falsy (in_image d)) "Invalid image url" in
  PokemonService.validateData d = match errors with [] => None | _ => Some errors end.
Proof.
  unfold PokemonService.validateData, PokemonService.push, when.
  destruct (falsy (in_name d)),
    (negb (Js.isInteger (JsValue.ToNumber (in_height d)))
     || Js.lt (JsValue.ToNumber (in_height d)) Js.pzero),
    (negb (Js.isInteger (JsValue.ToNumber (in_weight d)))
     || Js.lt (JsValue.ToNumber (in_weight d)) Js.pzero),
    (falsy (in_image d)); reflexivity.
Qed.

Ltac decided :=
  repeat match goal with
         | H : true = false <-> ?P |- _ =>
             assert (~ P) by (intros HP; apply H in HP; discriminate); clear H
         | H : false = false <-> ?P |- _ =>
             assert P by (apply H; reflexivity); clear H
         end.

(** C2: [validateData] returns null exactly when name and image are
    non-empty and the numbers coerced from height and weight are
    non-negative integers; otherwise the list it returns has no duplicates
    and holds the message of a field exactly when that field is invalid. *)
Theorem validateData_spec (d : PokemonInput) :
  let okName := non_empty (in_name d) in
  let okHeight := nonneg_integer (JsValue.ToNumber (in_height d)) in
  let okWeight := nonneg_integer (JsValue.ToNumber (in_weight d)) in
  let okImage := non_empty (in_image d) in
  (PokemonService.validateData d = None
   <-> okName /\ okHeight /\ okWeight /\ okImage)
  /\ (forall errs,
        PokemonService.validateData d = Some errs ->
        List.NoDup errs
        /\ forall e : Error,
             In e errs <->
             (e = "Invalid name"%string /\ ~ okName)
             \/ (e = "Invalid height"%string /\ ~ okHeight)
             \/ (e = "Invalid weight"%string /\ ~ okWeight)
             \/ (e = "Invalid image url"%string /\ ~ okImage)).
Proof.
  intros okName okHeight okWeight okImage.
  pose proof (falsy_spec (in_name d)) as Hn.
  pose proof (invalid_number_spec (JsValue.ToNumber (in_height d))) as Hh.
  pose proof (invalid_number_spec (JsValue.ToNumber (in_weight d))) as Hw.
  pose proof (falsy_spec (in_image d)) as Hi.
  fold okName in Hn. fold okHeight in Hh. fold okWeight in Hw. fold okImage in Hi.
  rewrite (validateData_errors d). cbv zeta.
  generalize dependent (falsy (in_name d)). intros bn Hn.
  generalize dependent (negb (Js.isInteger (JsValue.ToNumber (in_height d)))
                        || Js.lt (JsValue.ToNumber (in_height d)) Js.pzero).
  intros bh Hh.
  generalize dependent (negb (Js.isInteger (JsValue.ToNumber (in_weight d)))
                        || Js.lt (JsValue.ToNumber (in_weight d)) Js.pzero).
  intros bw Hw.
  generalize dependent (falsy (in_image d)). intros bi Hi.
  clearbody okName okHeight okWeight okImage.
  assert (Hmem : forall e, In e (when bn "Invalid name" ++ when bh "Invalid height"
                                 ++ when bw "Invalid weight" ++ when bi "Invalid image url")
                 <-> (e = "Invalid name"%string /\ ~ okName)
                     \/ (e = "Invalid height"%string /\ ~ okHeight)
                     \/ (e = "Invalid weight"%string /\ ~ okWeight)
                     \/ (e = "Invalid image url"%string /\ ~ okImage)).
  { intros e. rewrite !in_app_iff, !In_when.
    destruct bn, bh, bw, bi; decided; intuition congruence. }
  assert (Hnd : List.NoDup (when bn "Invalid name" ++ when bh "Invalid height"
                       ++ when bw "Invalid weight" ++ when bi "Invalid image url")).
  { destruct bn, bh, bw, bi; cbn [when app];
      repeat first [ apply List.NoDup_nil
                   | apply List.NoDup_cons; [cbn [In]; intuition discriminate | ] ]. }
  split.
  - destruct bn, bh, bw, bi; decided; cbn; split; try discriminate; tauto.
  - intros errs Herrs.
    destruct (when bn "Invalid name" ++ _) as [ | x l] eqn:El; [discriminate | ].
    injection Herrs as <-. split; [exact Hnd | exact Hmem].
Qed.

(** ** Page size and pagination *)

Lemma strict_eq_spec (o : option string) (lit : string) :
  strict_eq o lit = true <-> o = Some lit.
Proof.
  destruct o as [s | ]; cbn.
  - rewrite String.eqb_eq. split; congruence.
  - split; discriminate.
Qed.


Lemma resolvePageSize_cases (o : option string) :
  ((o = None \/ o = Some "10"%string) /\ PokemonService.resolvePageSize o = Ok (Js.ofZ 10))
  \/ (o = Some "20"%string /\ PokemonService.resolvePageSize o = Ok (Js.ofZ 20))
  \/ (o = Some "50"%string /\ PokemonService.resolvePageSize o = Ok (Js.ofZ 50))
  \/ (o <> None /\ o <> Some "10"%string /\ o <> Some "20"%string
      /\ o <> Some "50"%string
      /\ PokemonService.resolvePageSize o = Throw invalid_page_size).
Proof.
  unfold PokemonService.resolvePageSize.
  destruct o as [s | ]; [ | left; auto].
  destruct (strict_eq (Some s) "10") eqn:E1.
  { apply strict_eq_spec in E1. left; auto. }
  destruct (strict_eq (Some s) "20") eqn:E2.
  { apply strict_eq_spec in E2. right; left; auto. }
  destruct (strict_eq (Some s) "50") eqn:E3.
  { apply strict_eq_spec in E3. right; right; left; auto. }
  right; right; right.
  repeat split; try discriminate;
    intros H; apply strict_eq_spec in H; congruence.
Qed.

Lemma resolvePageSize_ok (o : option string) (n : Js.number) :
  PokemonService.resolvePageSize o = Ok n ->
  exists ps, (ps = 10 \/ ps = 20 \/ ps = 50) /\ n = Js.ofZ ps.
Proof.
  intros H.
  destruct (resolvePageSize_cases o)
    as [[_ E] | [[_ E] | [[_ E] | (_ & _ & _ & _ & E)]]];
    rewrite E in H; try discriminate; injection H as <-; eauto 6.
Qed.

Lemma getPokemons_throw (q : PokemonQuery) (σ : Store) (e : Exception) :
  PokemonService.resolvePageSize (q_pageSize q) = Throw e ->
  AppController.getPokemons q σ = (Throw e, σ).
Proof.
  intros H.
  unfold AppController.getPokemons, PokemonService.constructParams,
    PokemonService.resolvePage, bind, lift.
  rewrite H. reflexivity.
Qed.

Lemma service_getPokemons_ok (params : PokemonParams) (σ : Store) (sk tk : Z) :
  Prisma.int (p_skip params) = Some sk -> Prisma.int (p_take params) = Some tk ->
  0 <= sk -> 0 <= tk ->
  exists rows,
    PokemonService.getPokemons params σ
    = (Ok {| PokemonService.pokemons := rows;
             PokemonService.page :=
               Js.add (Js.div (p_skip params) (p_take params)) (Js.ofZ 1) |},
       logged (FindMany params) σ).
Proof.
  intros Hs Ht Hsk Htk. destruct params as [w o s t]. cbn in Hs, Ht.
  unfold PokemonService.getPokemons, Prisma.findMany, bind, Prisma.log,
    Prisma.get_table, logged. cbn.
  rewrite Hs, Ht.
  replace (0 <=? sk) with true by (symmetry; apply Z.leb_le; assumption).
  replace (0 <=? tk) with true by (symmetry; apply Z.leb_le; assumption).
  cbn. eexists. reflexivity.
Qed.

Lemma getPokemons_ok (q : PokemonQuery) (σ : Store) (st : PokemonService.SkipTake)
  (sk tk : Z) :
  PokemonService.resolvePage q = Ok st ->
  Prisma.int (PokemonService.skip st) = Some sk ->
  Prisma.int (PokemonService.take st) = Some tk ->
  0 <= sk -> 0 <= tk ->
  exists rows σ',
    AppController.getPokemons q σ
    = (Ok {| PokemonService.pokemons := rows;
             PokemonService.page :=
               Js.add (Js.div (PokemonService.skip st) (PokemonService.take st))
                 (Js.ofZ 1) |}, σ').
Proof.
  intros Hp Hs Ht Hsk Htk.
  unfold AppController.getPokemons, PokemonService.constructParams, bind, lift.
  rewrite Hp.
  edestruct (service_getPokemons_ok
               {| p_where := PokemonService.resolveWhere q;
                  p_orderBy := PokemonService.resolveOrderBy q;
                  p_skip := PokemonService.skip st;
                  p_take := PokemonService.take st |} σ sk tk) as [rows Hr]; auto.
  rewrite Hr. eauto.
Qed.

Lemma page_echo (ps v : Z) :
  0 < ps < 2 ^ 53 -> 1 <= v < 2 ^ 53 -> ps * (v - 1) < 2 ^ 53 ->
  Js.mul (Js.ofZ ps) (Js.sub (Js.ofZ v) (Js.ofZ 1)) = Js.ofZ (ps * (v - 1))
  /\ Js.add (Js.div (Js.ofZ (ps * (v - 1))) (Js.ofZ ps)) (Js.ofZ 1) = Js.ofZ v.
Proof.
  intros Hps Hv Hb. split.
  - rewrite ofZ_sub, ofZ_mul by lia. reflexivity.
  - rewrite (Z.mul_comm ps), ofZ_div, ofZ_add by lia. f_equal. lia.
Qed.

(** The normalized page of a page parameter that parses to the integer
    [z], and of one that is absent or parses to no integer. *)
Lemma validPage_parsed (o : option string) (z : Z) :
  Number_ o = Js.ofZ z -> - 2 ^ 53 < z < 2 ^ 53 ->
  PokemonService.validPage (PokemonService.resolveNumber o) = Js.ofZ (Z.max 1 z).
Proof.
  intros Hn Hz. unfold PokemonService.resolveNumber.
  rewrite Hn, isInteger_ofZ by assumption. apply validPage_ofZ. assumption.
Qed.

Lemma validPage_unparsed (o : option string) :
  Js.isInteger (Number_ o) = false ->
  PokemonService.validPage (PokemonService.resolveNumber o) = Js.ofZ 1.
Proof.
  intros Hn. unfold PokemonService.resolveNumber. rewrite Hn. reflexivity.
Qed.

(** The pagination in the arithmetic of JavaScript numbers. *)
Lemma resolvePage_shape (q : PokemonQuery) (size : Js.number) :
  PokemonService.resolvePageSize (q_pageSize q) = Ok size ->
  PokemonService.resolvePage q
  = Ok {| PokemonService.skip :=
            Js.mul size
              (Js.sub (PokemonService.validPage
                         (PokemonService.resolveNumber (q_page q))) (Js.ofZ 1));
          PokemonService.take := size |}.
Proof.
  intros Hsize. unfold PokemonService.resolvePage. rewrite Hsize. reflexivity.
Qed.

(** C4 (amended): for a list query whose page size resolves to [ps] (10, 20
    or 50) and whose normalized page is the integer [v >= 1] with
    [ps * (v - 1) < 2 ^ 53], the pagination is [skip = ps * (v - 1)] and
    [take = ps], and the page returned by the list operation, computed as
    [skip / take + 1], is [v] again. *)
Theorem pagination_exact (q : PokemonQuery) (ps v : Z) :
  PokemonService.resolvePageSize (q_pageSize q) = Ok (Js.ofZ ps) ->
  ps = 10 \/ ps = 20 \/ ps = 50 ->
  PokemonService.validPage (PokemonService.resolveNumber (q_page q)) = Js.ofZ v ->
  1 <= v -> ps * (v - 1) < 2 ^ 53 ->
  PokemonService.resolvePage q
  = Ok {| PokemonService.skip := Js.ofZ (ps * (v - 1));
          PokemonService.take := Js.ofZ ps |}
  /\ forall σ, exists rows σ',
       AppController.getPokemons q σ
       = (Ok {| PokemonService.pokemons := rows;
                PokemonService.page := Js.ofZ v |}, σ').
Proof.
  intros Hsize Hps Hpage Hv Hb.
  assert (Hr : 0 < ps < 2 ^ 53 /\ 1 <= v < 2 ^ 53).
  { change (2 ^ 53) with 9007199254740992 in *. lia. }
  destruct Hr as [Hr1 Hr2].
  destruct (page_echo ps v Hr1 Hr2 Hb) as [Hskip Hecho].
  assert (Hp : PokemonService.resolvePage q
               = Ok {| PokemonService.skip := Js.ofZ (ps * (v - 1));
                       PokemonService.take := Js.ofZ ps |}).
  { unfold PokemonService.resolvePage. rewrite Hsize, Hpage, Hskip. reflexivity. }
  split; [exact Hp | ].
  intros σ.
  destruct (getPokemons_ok q σ _ (ps * (v - 1)) ps Hp) as (rows & σ' & Hg);
    try (cbn; apply int_ofZ; lia); try lia.
  exists rows, σ'. rewrite Hg. cbn [PokemonService.skip PokemonService.take].
  rewrite Hecho. reflexivity.
Qed.

Lemma pagination_exact_witness :
  PokemonService.resolvePage (query None None (Some "3") (Some "20"))
  = Ok {| PokemonService.skip := Js.ofZ (20 * (3 - 1));
          PokemonService.take := Js.ofZ 20 |}
  /\ forall σ, exists rows σ',
       AppController.getPokemons (query None None (Some "3") (Some "20")) σ
       = (Ok {| PokemonService.pokemons := rows;
                PokemonService.page := Js.ofZ 3 |}, σ').
Proof.
  apply (pagination_exact (query None None (Some "3") (Some "20")) 20 3).
  - vm_compute. reflexivity.
  - right. left. reflexivity.
  - vm_compute. reflexivity.
  - lia.
  - vm_compute. reflexivity.
Defined.

(** C4 as stated fails: at page 9007199254740992 (2 ^ 53) and page size 10
    the product [10 * (2 ^ 53 - 1)] is rounded to 90071992547409904, and the
    list operation returns page 9007199254740991, not the normalized page. *)
Lemma page_echo_fails :
  let q := query None None (Some "9007199254740992") (Some "10") in
  PokemonService.resolvePageSize (q_pageSize q) = Ok (Js.ofZ 10)
  /\ PokemonService.validPage (PokemonService.resolveNumber (q_page q))
     = Js.ofZ 9007199254740992
  /\ option_map (fun st => Js.toZ (PokemonService.skip st))
       (match PokemonService.resolvePage q with Ok st => Some st | Throw _ => None end)
     = Some (Some 90071992547409904)
  /\ fst (AppController.getPokemons q empty_store)
     = Ok {| PokemonService.pokemons := [];
             PokemonService.page := Js.ofZ 9007199254740991 |}
  /\ Js.ofZ 9007199254740991 <> Js.ofZ 9007199254740992.
Proof.
  vm_compute. repeat split; discriminate.
Qed.

(** C10: when the page parameter does not parse to an integer (or is the
    empty string) the page is 1: the pagination starts at 0, the list
    operation returns page 1, and the only error the query can raise is
    that of the page size. *)
Theorem page_lenient (q : PokemonQuery) :
  Js.isInteger (Number_ (q_page q)) = false \/ q_page q = Some EmptyString ->
  PokemonService.validPage (PokemonService.resolveNumber (q_page q)) = Js.ofZ 1
  /\ match PokemonService.resolvePageSize (q_pageSize q) with
     | Ok size =>
         PokemonService.resolvePage q
         = Ok {| PokemonService.skip := Js.pzero; PokemonService.take := size |}
         /\ forall σ, exists rows σ',
              AppController.getPokemons q σ
              = (Ok {| PokemonService.pokemons := rows;
                       PokemonService.page := Js.ofZ 1 |}, σ')
     | Throw e => PokemonService.resolvePage q = Throw e
     end.
Proof.
  intros Hpage.
  assert (Hone : PokemonService.validPage (PokemonService.resolveNumber (q_page q))
                 = Js.ofZ 1).
  { destruct Hpage as [Hn | ->].
    - unfold PokemonService.resolveNumber. rewrite Hn. reflexivity.
    - reflexivity. }
  split; [exact Hone | ].
  destruct (PokemonService.resolvePageSize (q_pageSize q)) as [size | e] eqn:Hsize.
  2:{ unfold PokemonService.resolvePage. rewrite Hsize. reflexivity. }
  destruct (resolvePageSize_ok _ _ Hsize) as (ps & Hps & ->).
  assert (Hr : 0 < ps < 2 ^ 53 /\ ps * (1 - 1) < 2 ^ 53).
  { change (2 ^ 53) with 9007199254740992. lia. }
  destruct Hr as [Hr1 Hr2].
  destruct (page_echo ps 1 Hr1 ltac:(split; [lia | reflexivity]) Hr2) as [Hskip Hecho].
  replace (ps * (1 - 1)) with 0 in * by lia. change (Js.ofZ 0) with Js.pzero in *.
  assert (Hp : PokemonService.resolvePage q
               = Ok {| PokemonService.skip := Js.pzero;
                       PokemonService.take := Js.ofZ ps |}).
  { unfold PokemonService.resolvePage. rewrite Hsize, Hone, Hskip. reflexivity. }
  split; [exact Hp | ].
  intros σ.
  destruct (getPokemons_ok q σ _ 0 ps Hp) as (rows & σ' & Hg);
    try reflexivity; try (cbn; apply int_ofZ; lia); try lia.
  exists rows, σ'. rewrite Hg. cbn [PokemonService.skip PokemonService.take].
  rewrite Hecho. reflexivity.
Qed.

Lemma page_lenient_witness :
  Js.isInteger (Number_ (Some "2.5"%string)) = false
  /\ PokemonService.validPage (PokemonService.resolveNumber (Some "2.5"%string))
     = Js.ofZ 1
  /\ PokemonService.resolvePage (query None None (Some "2.5") (Some "50"))
     = Ok {| PokemonService.skip := Js.pzero; PokemonService.take := Js.ofZ 50 |}
  /\ forall σ, exists rows σ',
       AppController.getPokemons (query None None (Some "2.5") (Some "50")) σ
       = (Ok {| PokemonService.pokemons := rows;
                PokemonService.page := Js.ofZ 1 |}, σ').
Proof.
  split; [vm_compute; reflexivity | ].
  apply (page_lenient (query None None (Some "2.5") (Some "50"))).
  left. vm_compute. reflexivity.
Defined.

(** C5: the page size resolves exactly when the parameter is absent (10)
    or one of the strings '10', '20', '50' (that number); any other value
    raises a bad request, and the list request then ends with it, the store
    untouched: no query was issued. *)
Theorem resolvePageSize_spec (o : option string) :
  (forall n,
     PokemonService.resolvePageSize o = Ok n <->
     (o = None /\ n = Js.ofZ 10) \/ (o = Some "10"%string /\ n = Js.ofZ 10)
     \/ (o = Some "20"%string /\ n = Js.ofZ 20)
     \/ (o = Some "50"%string /\ n = Js.ofZ 50))
  /\ ((forall n, PokemonService.resolvePageSize o <> Ok n) ->
      exists r,
        PokemonService.resolvePageSize o = Throw (BadRequestException r)
        /\ forall q σ,
             q_pageSize q = o ->
             AppController.getPokemons q σ = (Throw (BadRequestException r), σ)).
Proof.
  destruct (resolvePageSize_cases o)
    as [[Ho E] | [[Ho E] | [[Ho E] | (H0 & H1 & H2 & H3 & E)]]]; rewrite E; split.
  - intros n. split.
    + intros [= <-]. destruct Ho; auto.
    + intros [[-> ->] | [[-> ->] | [[-> ->] | [-> ->]]]]; try reflexivity;
        destruct Ho; discriminate.
  - intros H. exfalso. exact (H _ eq_refl).
  - intros n. split.
    + intros [= <-]. auto.
    + intros [[-> ->] | [[-> ->] | [[-> ->] | [-> ->]]]]; try reflexivity; discriminate.
  - intros H. exfalso. exact (H _ eq_refl).
  - intros n. split.
    + intros [= <-]. auto 6.
    + intros [[-> ->] | [[-> ->] | [[-> ->] | [-> ->]]]]; try reflexivity; discriminate.
  - intros H. exfalso. exact (H _ eq_refl).
  - intros n. split; [discriminate | ]. intuition congruence.
  - intros _. eexists. split; [reflexivity | ].
    intros q σ <-. apply getPokemons_throw. exact E.
Qed.


(** ** Range bounds *)

Lemma translated_resolveWhere (b : Bound) (q : PokemonQuery) :
  translated b (PokemonService.resolveWhere q)
  = PokemonService.resolveNumber (param b q).
Proof. destruct b; reflexivity. Qed.

(** C6: each of the four height and weight bounds is translated on its own:
    a parameter that does not parse to an integer (as 'abc', '5.5' or an
    absent one) gives no bound, one that does gives the bound of that
    value, and the translation raises no error but that of the page
    size. *)
Theorem bounds_lenient (q : PokemonQuery) (b : Bound) :
  (Js.isInteger (Number_ (param b q)) = false ->
   translated b (PokemonService.resolveWhere q) = None)
  /\ (Js.isInteger (Number_ (param b q)) = true ->
      translated b (PokemonService.resolveWhere q) = Some (Number_ (param b q)))
  /\ match PokemonService.resolvePageSize (q_pageSize q) with
     | Ok _ => exists p, PokemonService.constructParams q = Ok p
                         /\ p_where p = PokemonService.resolveWhere q
     | Throw e => PokemonService.constructParams q = Throw e
     end
  /\ Js.isInteger (Number_ (Some "abc"%string)) = false
  /\ Js.isInteger (Number_ (Some "5.5"%string)) = false
  /\ Js.isInteger (Number_ None) = false.
Proof.
  rewrite translated_resolveWhere. unfold PokemonService.resolveNumber.
  split; [intros ->; reflexivity | ].
  split; [intros ->; reflexivity | ].
  split; [ | repeat split; vm_compute; reflexivity].
  unfold PokemonService.constructParams, PokemonService.resolvePage.
  destruct (PokemonService.resolvePageSize (q_pageSize q)); [ | reflexivity].
  eexists. split; reflexivity.
Qed.

(** C9: a bound parameter that is present and empty is translated to the
    bound 0, not to an absent bound; as a lower bound it keeps exactly the
    values [v >= 0]. *)
Theorem empty_bound_is_zero (q : PokemonQuery) (b : Bound) :
  param b q = Some EmptyString ->
  translated b (PokemonService.resolveWhere q) = Some Js.pzero
  /\ forall v : Z,
       - 2 ^ 53 < v < 2 ^ 53 ->
       (Prisma.in_range {| gte := Some Js.pzero; lte := None |} v = true <-> 0 <= v).
Proof.
  intros Hb. split.
  - rewrite translated_resolveWhere, Hb. reflexivity.
  - intros v Hv. unfold Prisma.in_range. cbn [gte lte]. rewrite andb_true_r.
    destruct (Z.lt_trichotomy v 0) as [Hn | [-> | Hp]].
    + replace v with (- - v) at 1 by lia. rewrite ofZ_neg by lia.
      cbn. split; [discriminate | lia].
    + cbn. split; [lia | reflexivity].
    + rewrite ofZ_canon by lia. cbn. split; [lia | reflexivity].
Qed.

Lemma empty_bound_is_zero_witness :
  translated heightGte
    (PokemonService.resolveWhere
       {| q_orderBy := None; q_orderDir := None; q_name := None;
          q_heightGte := Some EmptyString; q_heightLeq := None;
          q_weightGte := None; q_weightLeq := None;
          q_page := None; q_pageSize := None |}) = Some Js.pzero
  /\ forall v : Z,
       - 2 ^ 53 < v < 2 ^ 53 ->
       (Prisma.in_range {| gte := Some Js.pzero; lte := None |} v = true <-> 0 <= v).
Proof.
  apply (empty_bound_is_zero _ heightGte). reflexivity.
Defined.

(** C8: a PUT request whose body fails validation is answered with the
    list of body errors whatever the path id, and the store is untouched:
    the client received no lookup of the id. *)
Theorem put_body_errors_first (i : string) (d : PokemonInput) (σ : Store)
  (errs : list Error) :
  PokemonService.validateData d = Some errs ->
  AppController.publishPokemon i d σ
  = (Throw (BadRequestException (messages errs)), σ)
  /\ AppController.route (AppController.PUT_pokemon i d) σ
     = (Throw (BadRequestException (messages errs)), σ).
Proof.
  intros H. cbn [AppController.route]. unfold bind.
  rewrite (publishPokemon_invalid_body i d σ errs H). split; reflexivity.
Qed.


Lemma put_body_errors_first_witness :
  AppController.publishPokemon "7"
    (body (Some "pikachu") (JsValue.str "-4") (JsValue.num (Js.ofZ 60)) None)
    empty_store
  = (Throw (BadRequestException (messages ["Invalid height"; "Invalid image url"])),
     empty_store)
  /\ AppController.route
       (AppController.PUT_pokemon "7"
          (body (Some "pikachu") (JsValue.str "-4") (JsValue.num (Js.ofZ 60)) None))
       empty_store
     = (Throw (BadRequestException (messages ["Invalid height"; "Invalid image url"])),
        empty_store).
Proof.
  apply (put_body_errors_first "7"
           (body (Some "pikachu") (JsValue.str "-4") (JsValue.num (Js.ofZ 60)) None)).
  vm_compute. reflexivity.
Defined.

Lemma rejected_request_no_mutation_witness :
  exists r σ' l,
    AppController.route
      (AppController.PUT_pokemon "abc"
         (body (Some "pikachu") (JsValue.num (Js.ofZ 4)) (JsValue.str "60")
            (Some "http://img")))
      empty_store
    = (Throw (BadRequestException r), σ')
    /\ table σ' = table empty_store
    /\ calls σ' = calls empty_store ++ l
    /\ Forall (fun c => is_mutation c = false) l.
Proof.
  apply (rejected_request_no_mutation
           (AppController.PUT_pokemon "abc"
              (body (Some "pikachu") (JsValue.num (Js.ofZ 4)) (JsValue.str "60")
                 (Some "http://img")))).
  right. vm_compute. discriminate.
Defined.

(** ** Sorting *)

Lemma parseOrderDir_spec (o : option string) :
  (o = Some "desc"%string -> PokemonService.parseOrderDir o = desc)
  /\ (o <> Some "desc"%string -> PokemonService.parseOrderDir o = asc).
Proof.
  unfold PokemonService.parseOrderDir. split.
  - intros ->. reflexivity.
  - intros Hne. destruct (String.eqb (String_ o) "desc") eqn:E; [ | reflexivity].
    apply String.eqb_eq in E. destruct o as [s | ]; cbn in E; [ | discriminate].
    congruence.
Qed.

Lemma resolveOrderBy_sorts_by_name (q : PokemonQuery) :
  q_orderBy q = Some "name"%string \/ q_orderBy q = Some "height"%string
  \/ q_orderBy q = Some "weight"%string ->
  PokemonService.resolveOrderBy q
  = Some {| ob_column := col_name;
            ob_dir := PokemonService.parseOrderDir (q_orderDir q) |}.
Proof.
  unfold PokemonService.resolveOrderBy.
  intros [-> | [-> | ->]]; reflexivity.
Qed.

Lemma resolveOrderBy_unsorted (q : PokemonQuery) :
  q_orderBy q <> Some "name"%string -> q_orderBy q <> Some "height"%string ->
  q_orderBy q <> Some "weight"%string ->
  PokemonService.resolveOrderBy q = None.
Proof.
  intros H1 H2 H3. unfold PokemonService.resolveOrderBy.
  destruct (strict_eq (q_orderBy q) "name") eqn:E1.
  { apply strict_eq_spec in E1. contradiction. }
  destruct (strict_eq (q_orderBy q) "height") eqn:E2.
  { apply strict_eq_spec in E2. contradiction. }
  destruct (strict_eq (q_orderBy q) "weight") eqn:E3.
  { apply strict_eq_spec in E3. contradiction. }
  reflexivity.
Qed.

(** C1 fails on the code: for [orderBy] 'height' and 'weight' the sort
    that [resolveOrderBy] produces is on the column [name]. *)
Theorem resolveOrderBy_height_sorts_by_name :
  PokemonService.resolveOrderBy (query (Some "height") (Some "desc") None None)
  = Some {| ob_column := col_name; ob_dir := desc |}
  /\ PokemonService.resolveOrderBy (query (Some "weight") None None None)
     = Some {| ob_column := col_name; ob_dir := asc |}.
Proof. split; reflexivity. Qed.

(** ** The requests that succeed, and what every request keeps *)

Lemma when_nil (b : bool) (e : Error) : when b e = [] -> b = false.
Proof. destruct b; [discriminate | reflexivity]. Qed.

Lemma validateData_None (d : PokemonInput) :
  PokemonService.validateData d = None ->
  non_empty (in_name d) /\ nonneg_integer (JsValue.ToNumber (in_height d))
  /\ nonneg_integer (JsValue.ToNumber (in_weight d)) /\ non_empty (in_image d).
Proof.
  rewrite (validateData_errors d). cbv zeta.
  destruct (when (falsy (in_name d)) "Invalid name" ++ _) as [ | x l] eqn:E;
    [ | discriminate].
  intros _.
  apply app_eq_nil in E as [E1 E]. apply app_eq_nil in E as [E2 E].
  apply app_eq_nil in E as [E3 E4].
  apply when_nil in E1, E2, E3, E4.
  repeat split; try (apply falsy_spec; assumption);
    try (apply invalid_number_spec; assumption);
    apply (proj1 (invalid_number_spec _)); assumption.
Qed.

Lemma int_nonneg_integer (n : Js.number) :
  nonneg_integer n -> exists z, Prisma.int n = Some z /\ Js.toZ n = Some z /\ 0 <= z.
Proof.
  intros [Hi (z & Hz & Hnn)]. exists z. unfold Prisma.int. rewrite Hi. auto.
Qed.

(** The row that the client stores for a validated body. *)
Lemma validated_row (d : PokemonInput) :
  PokemonService.validateData d = None ->
  exists s h w im,
    in_name d = Some s /\ s <> EmptyString
    /\ in_image d = Some im /\ im <> EmptyString
    /\ Js.toZ (JsValue.ToNumber (in_height d)) = Some h /\ 0 <= h
    /\ Js.toZ (JsValue.ToNumber (in_weight d)) = Some w /\ 0 <= w
    /\ forall k, Prisma.row k (PokemonService.resolveData d)
                 = Some {| id := k; name := s; height := h; weight := w; image := im |}.
Proof.
  intros Hv. destruct (validateData_None d Hv) as ((s & Hs & Hsne) & Hh & Hw & (im & Him & Himne)).
  destruct (int_nonneg_integer _ Hh) as (h & Hih & Hth & Hh0).
  destruct (int_nonneg_integer _ Hw) as (w & Hiw & Htw & Hw0).
  exists s, h, w, im. repeat split; auto.
  intros k. unfold Prisma.row, PokemonService.resolveData. cbn.
  rewrite Hih, Hiw, Hs, Him. reflexivity.
Qed.

Lemma createPokemon_valid (d : PokemonInput) (σ : Store) (r : Pokemon) :
  PokemonService.validateData d = None ->
  Prisma.row (serial σ) (PokemonService.resolveData d) = Some r ->
  AppController.createPokemon d σ
  = (Ok r, {| table := <[serial σ := r]> (table σ);
              serial := serial σ + 1;
              calls := calls σ ++ [Create (PokemonService.resolveData d)] |}).
Proof.
  intros Hv Hr. unfold AppController.createPokemon. rewrite Hv.
  unfold PokemonService.createPokemon, Prisma.create, bind, Prisma.log,
    Prisma.fresh_id, Prisma.get_table, Prisma.put_table, ret. cbn.
  rewrite Hr. reflexivity.
Qed.

Lemma validateId_exists (n : Js.number) (σ : Store) :
  id_exists n σ ->
  exists z r, Prisma.int n = Some z /\ table σ !! z = Some r /\ 0 <= z
    /\ PokemonService.validateId n σ = (Ok None, logged (FindUnique n) σ).
Proof.
  intros He. pose proof He as [[Hi (z0 & Hz0 & Hnn)] (z & r & Hz & Hr)].
  assert (z0 = z) by congruence. subst z0.
  destruct (validateId_cases n σ) as [[Hc _] | (z' & Hc & Hz' & Hv)].
  - apply id_exists_iff in He as (? & ? & Hc' & _). congruence.
  - assert (z' = z) by congruence. subst z'. rewrite Hr in Hv.
    exists z, r. unfold Prisma.int. rewrite Hi. auto.
Qed.

Lemma deletePokemon_valid (i : string) (σ : Store) (z : Z) (r : Pokemon) :
  Prisma.int (Js.StringToNumber i) = Some z -> table σ !! z = Some r ->
  PokemonService.validateId (Js.StringToNumber i) σ
  = (Ok None, logged (FindUnique (Js.StringToNumber i)) σ) ->
  AppController.deletePokemon i σ
  = (Ok r, {| table := base.delete z (table σ);
              serial := serial σ;
              calls := calls σ ++ [FindUnique (Js.StringToNumber i);
                                   Delete (Js.StringToNumber i)] |}).
Proof.
  intros Hi Hr Hv. unfold AppController.deletePokemon, bind. rewrite Hv.
  unfold PokemonService.deletePokemon, Prisma.delete, bind, Prisma.log,
    Prisma.get_table, Prisma.put_table, ret, logged. cbn.
  rewrite Hi, Hr, <- app_assoc. reflexivity.
Qed.

Lemma publishPokemon_valid (i : string) (d : PokemonInput) (σ : Store) (z : Z)
  (old r : Pokemon) :
  PokemonService.validateData d = None ->
  Prisma.int (Js.StringToNumber i) = Some z -> table σ !! z = Some old ->
  PokemonService.validateId (Js.StringToNumber i) σ
  = (Ok None, logged (FindUnique (Js.StringToNumber i)) σ) ->
  Prisma.row z (PokemonService.resolveData d) = Some r ->
  AppController.publishPokemon i d σ
  = (Ok r, {| table := <[z := r]> (table σ);
              serial := serial σ;
              calls := calls σ ++ [FindUnique (Js.StringToNumber i);
                                   Update (Js.StringToNumber i)
                                     (PokemonService.resolveData d)] |}).
Proof.
  intros Hd Hi Ho Hv Hr. unfold AppController.publishPokemon, bind. rewrite Hd, Hv.
  unfold PokemonService.updatePokemon, Prisma.update, bind, Prisma.log,
    Prisma.get_table, Prisma.put_table, ret, logged. cbn.
  rewrite Hi, Ho, Hr, <- app_assoc. reflexivity.
Qed.

Lemma snd_bind_ret {A B} (m : M A) (f : A -> B) (σ : Store) :
  snd (bind m (fun x => ret (f x)) σ) = snd (m σ).
Proof. unfold bind, ret. destruct (m σ) as [[a | e] σ']; reflexivity. Qed.

Lemma fst_bind_ret {A B} (m : M A) (f : A -> B) (σ : Store) :
  fst (bind m (fun x => ret (f x)) σ)
  = match fst (m σ) with Ok a => Ok (f a) | Throw e => Throw e end.
Proof. unfold bind, ret. destruct (m σ) as [[a | e] σ']; reflexivity. Qed.

Lemma findMany_store (args : PokemonParams) (σ : Store) :
  snd (Prisma.findMany args σ) = logged (FindMany args) σ.
Proof.
  unfold Prisma.findMany, bind, Prisma.log, Prisma.get_table, logged. cbn.
  destruct (Prisma.int (p_skip args)), (Prisma.int (p_take args)); try reflexivity.
  destruct ((0 <=? z) && (0 <=? z0)); reflexivity.
Qed.

Lemma service_getPokemons_store (params : PokemonParams) (σ : Store) :
  snd (PokemonService.getPokemons params σ) = logged (FindMany params) σ.
Proof.
  destruct params as [w o s t]. unfold PokemonService.getPokemons.
  pose proof (findMany_store
                {| p_where := w; p_orderBy := o; p_skip := s; p_take := t |} σ) as H.
  unfold bind. destruct (Prisma.findMany _ σ) as [[rows | e] σ']; cbn in *; exact H.
Qed.

Lemma getPokemons_store (q : PokemonQuery) (σ : Store) :
  (exists e, PokemonService.constructParams q = Throw e
             /\ AppController.getPokemons q σ = (Throw e, σ))
  \/ (exists params, PokemonService.constructParams q = Ok params
        /\ snd (AppController.getPokemons q σ) = logged (FindMany params) σ).
Proof.
  unfold AppController.getPokemons, bind, lift.
  destruct (PokemonService.constructParams q) as [params | e].
  - right. exists params. split; [reflexivity | apply service_getPokemons_store].
  - left. exists e. auto.
Qed.

(** What a request does to the table and to the serial counter. *)
Lemma route_effect (req : AppController.Request) (σ : Store) :
  let σ' := snd (AppController.route req σ) in
  (table σ' = table σ /\ serial σ' = serial σ)
  \/ (exists d r,
        req = AppController.POST_pokemon d
        /\ PokemonService.validateData d = None
        /\ Prisma.row (serial σ) (PokemonService.resolveData d) = Some r
        /\ table σ' = <[serial σ := r]> (table σ) /\ serial σ' = serial σ + 1)
  \/ (exists i d z old r,
        req = AppController.PUT_pokemon i d
        /\ PokemonService.validateData d = None
        /\ table σ !! z = Some old
        /\ Prisma.row z (PokemonService.resolveData d) = Some r
        /\ table σ' = <[z := r]> (table σ) /\ serial σ' = serial σ)
  \/ (exists i z r,
        req = AppController.DELETE_pokemon i
        /\ table σ !! z = Some r
        /\ table σ' = base.delete z (table σ) /\ serial σ' = serial σ).
Proof.
  destruct req as [q | d | i d | i]; cbn [AppController.route]; cbv zeta;
    rewrite snd_bind_ret.
  - left. destruct (getPokemons_store q σ) as [(e & _ & ->) | (p & _ & ->)]; auto.
  - destruct (PokemonService.validateData d) as [errs | ] eqn:Hd.
    + left. rewrite (createPokemon_invalid_body d σ errs Hd). auto.
    + destruct (validated_row d Hd) as (s & h & w & im & _ & _ & _ & _ & _ & _ & _ & _ & Hr).
      right; left. eexists d, _. rewrite (createPokemon_valid d σ _ Hd (Hr _)).
      cbn. auto.
  - destruct (PokemonService.validateData d) as [errs | ] eqn:Hd.
    { left. rewrite (publishPokemon_invalid_body i d σ errs Hd). auto. }
    destruct (validateId_result (Js.StringToNumber i) σ) as [[He _] | [_ Hf]].
    + destruct (validateId_exists _ _ He) as (z & old & Hz & Ho & _ & Hv).
      destruct (validated_row d Hd) as (s & h & w & im & _ & _ & _ & _ & _ & _ & _ & _ & Hr).
      right; right; left. eexists i, d, z, old, _.
      rewrite (publishPokemon_valid i d σ z old _ Hd Hz Ho Hv (Hr z)). cbn. auto 10.
    + left. rewrite (publishPokemon_invalid_id i d σ _ Hd Hf). cbn [snd].
      destruct (validateId_store (Js.StringToNumber i) σ) as (Ht & Hs & _). auto.
  - destruct (validateId_result (Js.StringToNumber i) σ) as [[He _] | [_ Hf]].
    + destruct (validateId_exists _ _ He) as (z & r & Hz & Hr & _ & Hv).
      right; right; right. exists i, z, r.
      rewrite (deletePokemon_valid i σ z r Hz Hr Hv). cbn. auto.
    + left. rewrite (deletePokemon_invalid i σ _ Hf). cbn [snd].
      destruct (validateId_store (Js.StringToNumber i) σ) as (Ht & Hs & _). auto.
Qed.

Lemma row_well_formed (d : PokemonInput) (k : Z) (r : Pokemon) :
  PokemonService.validateData d = None ->
  Prisma.row k (PokemonService.resolveData d) = Some r -> well_formed k r.
Proof.
  intros Hd Hr.
  destruct (validated_row d Hd) as (s & h & w & im & _ & Hs & _ & Him & _ & Hh & _ & Hw & Hrow).
  rewrite Hrow in Hr. injection Hr as <-. unfold well_formed. cbn. auto.
Qed.

(** X1: every request keeps the rows of the table validated. *)
Theorem route_keeps_rows_valid (req : AppController.Request) (σ : Store) :
  valid_table σ -> valid_table (snd (AppController.route req σ)).
Proof.
  intros Hv. unfold valid_table.
  destruct (route_effect req σ)
    as [[Ht _] | [(d & r & _ & Hd & Hr & Ht & _)
               | [(i & d & z & old & r & _ & Hd & _ & Hr & Ht & _)
                 | (i & z & r & _ & _ & Ht & _)]]];
    rewrite Ht; intros k x Hk.
  - eauto.
  - apply lookup_insert_Some in Hk as [[<- <-] | [_ Hk]]; [ | eauto].
    eapply row_well_formed; eauto.
  - apply lookup_insert_Some in Hk as [[<- <-] | [_ Hk]]; [ | eauto].
    eapply row_well_formed; eauto.
  - apply lookup_delete_Some in Hk as [_ Hk]. eauto.
Qed.

(** X2: every request keeps the serial counter above the ids in use, and
    leaves the rows that it does not address as they are. *)
Theorem route_keeps_serial_fresh (req : AppController.Request) (σ : Store) :
  serial_fresh σ -> serial_fresh (snd (AppController.route req σ)).
Proof.
  intros Hf. unfold serial_fresh.
  destruct (route_effect req σ)
    as [[Ht Hs] | [(d & r & _ & Hd & Hr & Ht & Hs)
               | [(i & d & z & old & r & _ & Hd & Ho & Hr & Ht & Hs)
                 | (i & z & r & _ & _ & Ht & Hs)]]];
    rewrite Ht, Hs; intros k x Hk.
  - eauto.
  - apply lookup_insert_Some in Hk as [[<- <-] | [_ Hk]]; [lia | ].
    specialize (Hf _ _ Hk). lia.
  - apply lookup_insert_Some in Hk as [[<- <-] | [_ Hk]]; eauto.
  - apply lookup_delete_Some in Hk as [_ Hk]. eauto.
Qed.

Lemma int_Some (n : Js.number) (z : Z) :
  Prisma.int n = Some z -> Js.isInteger n = true /\ Js.toZ n = Some z.
Proof.
  unfold Prisma.int. destruct (Js.isInteger n); [auto | discriminate].
Qed.

(** X3: a valid body is stored as it was sent. *)
Theorem create_stores_input (d : PokemonInput) (σ : Store) :
  PokemonService.validateData d = None ->
  exists s h w im,
    in_name d = Some s /\ in_image d = Some im
    /\ Js.toZ (JsValue.ToNumber (in_height d)) = Some h
    /\ Js.toZ (JsValue.ToNumber (in_weight d)) = Some w
    /\ let r := {| id := serial σ; name := s; height := h; weight := w;
                   image := im |} in
       AppController.createPokemon d σ
       = (Ok r, {| table := <[serial σ := r]> (table σ);
                   serial := serial σ + 1;
                   calls := calls σ ++ [Create (PokemonService.resolveData d)] |}).
Proof.
  intros Hd.
  destruct (validated_row d Hd) as (s & h & w & im & Hs & _ & Him & _ & Hh & _ & Hw & _ & Hr).
  exists s, h, w, im. repeat split; auto.
  cbv zeta. apply createPokemon_valid; auto.
Qed.

(** X4: an update replaces the row of the id and nothing else. *)
Theorem update_replaces_row (i : string) (d : PokemonInput) (σ : Store) :
  PokemonService.validateData d = None ->
  id_exists (Js.StringToNumber i) σ ->
  exists z s h w im,
    Js.toZ (Js.StringToNumber i) = Some z
    /\ in_name d = Some s /\ in_image d = Some im
    /\ Js.toZ (JsValue.ToNumber (in_height d)) = Some h
    /\ Js.toZ (JsValue.ToNumber (in_weight d)) = Some w
    /\ let r := {| id := z; name := s; height := h; weight := w; image := im |} in
       AppController.publishPokemon i d σ
       = (Ok r, {| table := <[z := r]> (table σ);
                   serial := serial σ;
                   calls := calls σ ++ [FindUnique (Js.StringToNumber i);
                                        Update (Js.StringToNumber i)
                                          (PokemonService.resolveData d)] |}).
Proof.
  intros Hd He.
  destruct (validateId_exists _ _ He) as (z & old & Hz & Ho & _ & Hv).
  destruct (validated_row d Hd) as (s & h & w & im & Hs & _ & Him & _ & Hh & _ & Hw & _ & Hr).
  exists z, s, h, w, im. destruct (int_Some _ _ Hz) as [_ Htz].
  repeat split; auto. cbv zeta.
  apply (publishPokemon_valid i d σ z old); auto.
Qed.

Lemma deletePokemon_absent (i : string) (σ : Store) :
  ~ id_exists (Js.StringToNumber i) σ ->
  AppController.deletePokemon i σ
  = (Throw (BadRequestException (message "Invalid id")),
     snd (PokemonService.validateId (Js.StringToNumber i) σ)).
Proof.
  intros Hn. apply deletePokemon_invalid.
  destruct (validateId_result (Js.StringToNumber i) σ) as [[He _] | [_ H]]; tauto.
Qed.

(** X5: a delete removes the row of the id and returns it; the same delete
    again is refused. *)
Theorem delete_removes_row (i : string) (σ : Store) :
  id_exists (Js.StringToNumber i) σ ->
  exists z r σ',
    Js.toZ (Js.StringToNumber i) = Some z /\ table σ !! z = Some r
    /\ AppController.deletePokemon i σ = (Ok r, σ')
    /\ table σ' = base.delete z (table σ)
    /\ serial σ' = serial σ
    /\ calls σ' = calls σ ++ [FindUnique (Js.StringToNumber i);
                              Delete (Js.StringToNumber i)]
    /\ fst (AppController.deletePokemon i σ')
       = Throw (BadRequestException (message "Invalid id")).
Proof.
  intros He.
  destruct (validateId_exists _ _ He) as (z & r & Hz & Hr & _ & Hv).
  destruct (int_Some _ _ Hz) as [_ Htz].
  eexists z, r, _. rewrite (deletePokemon_valid i σ z r Hz Hr Hv).
  repeat split; auto.
  rewrite deletePokemon_absent; [reflexivity | ].
  intros [_ (z' & r' & Hz' & Hr')]. cbn in Hr'.
  assert (z' = z) by congruence. subst z'.
  rewrite lookup_delete_eq in Hr'. discriminate.
Qed.

(** X6: a list request writes nothing. *)
Theorem list_writes_nothing (q : PokemonQuery) (σ : Store) :
  let σ' := snd (AppController.getPokemons q σ) in
  table σ' = table σ /\ serial σ' = serial σ
  /\ ((exists e, PokemonService.constructParams q = Throw e /\ calls σ' = calls σ)
      \/ (exists params, PokemonService.constructParams q = Ok params
            /\ calls σ' = calls σ ++ [FindMany params])).
Proof.
  cbv zeta. destruct (getPokemons_store q σ) as [(e & Hc & ->) | (p & Hc & ->)]; cbn.
  - repeat split. left. eauto.
  - repeat split. right. eauto.
Qed.

Lemma nonneg_integer_cond (n : Js.number) :
  nonneg_integer n <-> Js.isInteger n && Js.ge n Js.pzero = true.
Proof.
  unfold nonneg_integer. rewrite andb_true_iff. split.
  - intros [Hi Hz]. split; [assumption | apply ge_zero_spec; assumption].
  - intros [Hi Hg]. split; [assumption | apply ge_zero_spec; assumption].
Qed.

(** X7: the id check looks the id up once when it is a non-negative integer
    and not at all otherwise; it never writes. *)
Theorem validateId_lookup (n : Js.number) (σ : Store) :
  (nonneg_integer n ->
   snd (PokemonService.validateId n σ)
   = {| table := table σ; serial := serial σ;
        calls := calls σ ++ [FindUnique n] |})
  /\ (~ nonneg_integer n -> snd (PokemonService.validateId n σ) = σ).
Proof.
  rewrite nonneg_integer_cond.
  destruct (validateId_cases n σ) as [[Hc ->] | (z & Hc & _ & ->)]; rewrite Hc; cbn.
  - split; [discriminate | reflexivity].
  - split; [reflexivity | congruence].
Qed.

(** X8: the normalized page is an integer and at least 1. *)
Theorem validPage_at_least_one (o : option string) :
  exists z,
    Js.isInteger (PokemonService.validPage (PokemonService.resolveNumber o)) = true
    /\ Js.toZ (PokemonService.validPage (PokemonService.resolveNumber o)) = Some z
    /\ 1 <= z.
Proof.
  unfold PokemonService.resolveNumber, PokemonService.validPage.
  destruct (Js.isInteger (Number_ o)) eqn:Hi; [ | exists 1; repeat split; lia].
  destruct (negb (Js.truthy (Number_ o)) || Js.lt (Number_ o) (Js.ofZ 1)) eqn:Hc;
    [exists 1; repeat split; lia | ].
  apply orb_false_iff in Hc as [Ht Hl]. apply negb_false_iff in Ht.
  destruct (Number_ o) as [s | s | | s m e]; try discriminate.
  destruct s; [discriminate Hl | ].
  pose proof (finite_integer_pos false m e _ Hi eq_refl) as Hpos.
  eexists. split; [exact Hi | split; [reflexivity | ]]. cbv beta iota. lia.
Qed.

Lemma Zdigits2_lt (a b : Z) :
  0 < a -> 0 < b -> Zdigits2 a < Zdigits2 b -> a < b.
Proof.
  intros Ha Hb Hd.
  destruct (Zdigits2_bounds a Ha) as [_ [_ Ha2]].
  destruct (Zdigits2_bounds b Hb) as [Hdb [Hb1 _]].
  assert (2 ^ Zdigits2 a <= 2 ^ (Zdigits2 b - 1))
    by (apply Z.pow_le_mono_r; lia).
  lia.
Qed.

Lemma compare_canon (s : bool) (a b : Z) :
  0 < a < 2 ^ 53 -> 0 < b < 2 ^ 53 ->
  SFcompare (Js.canon s a) (Js.canon s b)
  = Some (if s then CompOpp (a ?= b) else a ?= b).
Proof.
  intros Ha Hb.
  pose proof (digits_small a Ha) as Hda. pose proof (digits_small b Hb) as Hdb.
  assert (Hc : match Zdigits2 a - 53 ?= Zdigits2 b - 53 with
               | Eq => Pos.compare_cont Eq
                         (Z.to_pos (a * 2 ^ (53 - Zdigits2 a)))
                         (Z.to_pos (b * 2 ^ (53 - Zdigits2 b)))
               | Lt => Lt
               | Gt => Gt
               end = (a ?= b)).
  { destruct (Z.compare_spec (Zdigits2 a - 53) (Zdigits2 b - 53)) as [He | He | He].
    - change (Pos.compare_cont Eq ?x ?y) with (Pos.compare x y).
      rewrite Pos2Z.inj_compare, !canon_mantissa by assumption.
      replace (Zdigits2 b) with (Zdigits2 a) by lia.
      assert (Hp : 0 < 2 ^ (53 - Zdigits2 a)) by (apply Z.pow_pos_nonneg; lia).
      destruct (Z.compare_spec a b) as [Hab | Hab | Hab].
      + subst b. apply Z.compare_refl.
      + apply Z.compare_lt_iff. nia.
      + apply Z.compare_gt_iff. nia.
    - symmetry. apply Z.compare_lt_iff. apply Zdigits2_lt; lia.
    - symmetry. apply Z.compare_gt_iff. apply Zdigits2_lt; lia. }
  unfold Js.canon. cbn [SFcompare]. f_equal. destruct s.
  - rewrite <- Hc.
    destruct (Zdigits2 a - 53 ?= Zdigits2 b - 53); reflexivity.
  - exact Hc.
Qed.

Ltac decide_compare c :=
  match goal with
  | |- _ = Some (?a ?= ?b) =>
      replace (a ?= b) with c
        by (symmetry; first [apply Z.compare_lt_iff | apply Z.compare_gt_iff]; lia);
      reflexivity
  end.

Lemma compare_ofZ (a b : Z) :
  - 2 ^ 53 < a < 2 ^ 53 -> - 2 ^ 53 < b < 2 ^ 53 ->
  SFcompare (Js.ofZ a) (Js.ofZ b) = Some (a ?= b).
Proof.
  intros Ha Hb.
  destruct (Z.lt_trichotomy a 0) as [Ha0 | [-> | Ha0]];
    destruct (Z.lt_trichotomy b 0) as [Hb0 | [-> | Hb0]].
  - replace a with (- - a) at 1 by lia. replace b with (- - b) at 1 by lia.
    rewrite !ofZ_neg, compare_canon by lia. f_equal.
    rewrite <- Z.compare_antisym, Z.compare_opp. f_equal; lia.
  - replace a with (- - a) at 1 by lia. rewrite ofZ_neg by lia.
    unfold Js.canon. decide_compare Lt.
  - replace a with (- - a) at 1 by lia. rewrite ofZ_neg, (ofZ_canon b) by lia.
    unfold Js.canon. decide_compare Lt.
  - replace b with (- - b) at 1 by lia. rewrite ofZ_neg by lia.
    unfold Js.canon. decide_compare Gt.
  - reflexivity.
  - rewrite (ofZ_canon b) by lia. unfold Js.canon. decide_compare Lt.
  - replace b with (- - b) at 1 by lia. rewrite ofZ_neg, (ofZ_canon a) by lia.
    unfold Js.canon. decide_compare Gt.
  - rewrite (ofZ_canon a) by lia. unfold Js.canon. decide_compare Gt.
  - rewrite (ofZ_canon a), (ofZ_canon b), compare_canon by lia. reflexivity.
Qed.

Lemma ge_ofZ (a b : Z) :
  - 2 ^ 53 < a < 2 ^ 53 -> - 2 ^ 53 < b < 2 ^ 53 ->
  (Js.ge (Js.ofZ a) (Js.ofZ b) = true <-> b <= a).
Proof.
  intros Ha Hb. unfold Js.ge, SFleb. rewrite compare_ofZ by assumption.
  destruct (Z.compare_spec b a); split; intros; try reflexivity; try lia;
    discriminate.
Qed.

Lemma In_first_rows (k : Z) (l : list Pokemon) (r : Pokemon) :
  In r (Prisma.first_rows k l) -> In r l.
Proof.
  revert k. induction l as [ | x l IH]; intros k; cbn; [tauto | ].
  destruct (0 <? k); cbn; [ | tauto]. intros [-> | H]; eauto.
Qed.

Lemma length_first_rows (k : Z) (l : list Pokemon) :
  0 <= k -> Z.of_nat (length (Prisma.first_rows k l)) <= k.
Proof.
  revert k. induction l as [ | x l IH]; intros k Hk; cbn; [lia | ].
  destruct (0 <? k) eqn:E; cbn; [ | lia].
  apply Z.ltb_lt in E. specialize (IH (k - 1) ltac:(lia)). lia.
Qed.

Lemma In_skip_rows (k : Z) (l : list Pokemon) (r : Pokemon) :
  In r (Prisma.skip_rows k l) -> In r l.
Proof.
  revert k. induction l as [ | x l IH]; intros k; cbn; [tauto | ].
  destruct (0 <? k); cbn; [eauto | tauto].
Qed.

Lemma In_insert_sorted (leb : Pokemon -> Pokemon -> bool) (x r : Pokemon)
  (l : list Pokemon) :
  In r (Prisma.insert_sorted leb x l) -> r = x \/ In r l.
Proof.
  induction l as [ | y l IH]; cbn.
  - intros [<- | []]. auto.
  - destruct (leb x y); cbn; intuition auto.
Qed.

Lemma In_sort_rows (o : option OrderBy) (l : list Pokemon) (r : Pokemon) :
  In r (Prisma.sort_rows o l) -> In r l.
Proof.
  destruct o as [ob | ]; cbn; [ | tauto].
  induction l as [ | x l IH]; cbn; [tauto | ].
  intros H. apply In_insert_sorted in H as [-> | H]; auto.
Qed.

Lemma getPokemons_rows (q : PokemonQuery) (σ : Store) (p : PokemonService.Page) :
  fst (AppController.getPokemons q σ) = Ok p ->
  exists st tk,
    PokemonService.resolvePage q = Ok st
    /\ Prisma.int (PokemonService.take st) = Some tk /\ 0 <= tk
    /\ Z.of_nat (length (PokemonService.pokemons p)) <= tk
    /\ forall r, In r (PokemonService.pokemons p) ->
         Prisma.matches (PokemonService.resolveWhere q) r = true
         /\ exists k, table σ !! k = Some r.
Proof.
  unfold AppController.getPokemons, PokemonService.constructParams, bind, lift.
  destruct (PokemonService.resolvePage q) as [st | e]; [ | discriminate].
  unfold PokemonService.getPokemons, Prisma.findMany, bind, Prisma.log,
    Prisma.get_table, ret. cbn.
  destruct (Prisma.int (PokemonService.skip st)) as [sk | ]; [ | discriminate].
  destruct (Prisma.int (PokemonService.take st)) as [tk | ] eqn:Htk; [ | discriminate].
  destruct ((0 <=? sk) && (0 <=? tk)) eqn:E; [ | discriminate].
  apply andb_true_iff in E as [_ Etk]. apply Z.leb_le in Etk.
  cbn. intros [= <-]. cbn.
  exists st, tk.
  split; [reflexivity | ]. split; [exact Htk | ]. split; [assumption | ].
  split; [apply length_first_rows; assumption | ].
  intros r H.
  apply In_first_rows, In_skip_rows, In_sort_rows in H.
  apply list_elem_of_In, list_elem_of_filter in H as [Hm H].
  split; [exact Hm | ].
  apply list_elem_of_In, in_map_iff in H as ([k r'] & Hr & H). cbn in Hr. subst r'.
  exists k. apply elem_of_map_to_list. apply list_elem_of_In. exact H.
Qed.

(** X9: a list response has at most as many rows as the page size, each of
    them a row of the table that satisfies the filter. *)
Theorem list_within_page_size (q : PokemonQuery) (σ : Store)
  (p : PokemonService.Page) :
  fst (AppController.getPokemons q σ) = Ok p ->
  exists ps,
    (ps = 10 \/ ps = 20 \/ ps = 50)
    /\ PokemonService.resolvePageSize (q_pageSize q) = Ok (Js.ofZ ps)
    /\ Z.of_nat (length (PokemonService.pokemons p)) <= ps
    /\ forall r, In r (PokemonService.pokemons p) ->
         Prisma.matches (PokemonService.resolveWhere q) r = true
         /\ exists k, table σ !! k = Some r.
Proof.
  intros H. destruct (getPokemons_rows q σ p H) as (st & tk & Hp & Ht & _ & Hl & Hr).
  unfold PokemonService.resolvePage in Hp.
  destruct (PokemonService.resolvePageSize (q_pageSize q)) as [size | e] eqn:Hs;
    [ | discriminate].
  destruct (resolvePageSize_ok _ _ Hs) as (ps & Hps & ->).
  injection Hp as <-. cbn in Ht.
  rewrite int_ofZ in Ht by (change (2 ^ 53) with 9007199254740992; lia).
  injection Ht as <-. exists ps. auto.
Qed.

(** X10: a bound that parses to the integer [z] is respected by every row of
    the list response. *)
Theorem list_respects_bound (q : PokemonQuery) (b : Bound) (z : Z) (σ : Store)
  (p : PokemonService.Page) (r : Pokemon) :
  Number_ (param b q) = Js.ofZ z -> - 2 ^ 53 < z < 2 ^ 53 ->
  fst (AppController.getPokemons q σ) = Ok p ->
  In r (PokemonService.pokemons p) ->
  - 2 ^ 53 < bound_value b r < 2 ^ 53 ->
  within b z (bound_value b r).
Proof.
  intros Hn Hz Hp Hr Hv.
  destruct (getPokemons_rows q σ p Hp) as (_ & _ & _ & _ & _ & _ & Hm).
  destruct (Hm r Hr) as [Hmatch _].
  assert (Ht : translated b (PokemonService.resolveWhere q) = Some (Js.ofZ z)).
  { rewrite translated_resolveWhere. unfold PokemonService.resolveNumber.
    rewrite Hn, isInteger_ofZ by assumption. reflexivity. }
  unfold Prisma.matches in Hmatch.
  apply andb_true_iff in Hmatch as [Hmatch Hw].
  apply andb_true_iff in Hmatch as [_ Hh].
  unfold Prisma.in_range in Hh, Hw.
  apply andb_true_iff in Hh as [Hh1 Hh2]. apply andb_true_iff in Hw as [Hw1 Hw2].
  destruct b; cbn [translated bound_value within] in *.
  - rewrite Ht in Hh1. apply ge_ofZ in Hh1; assumption.
  - rewrite Ht in Hh2. apply ge_ofZ in Hh2; assumption.
  - rewrite Ht in Hw1. apply ge_ofZ in Hw1; assumption.
  - rewrite Ht in Hw2. apply ge_ofZ in Hw2; assumption.
Qed.

(** X11: the sort is on the name or there is none. *)
Theorem resolveOrderBy_only_name (q : PokemonQuery) :
  (forall o,
     PokemonService.resolveOrderBy q = Some o ->
     ob_column o = col_name
     /\ (ob_dir o = desc <-> q_orderDir q = Some "desc"%string))
  /\ (PokemonService.resolveOrderBy q = None <->
      q_orderBy q <> Some "name"%string /\ q_orderBy q <> Some "height"%string
      /\ q_orderBy q <> Some "weight"%string).
Proof.
  assert (Hdir : PokemonService.parseOrderDir (q_orderDir q) = desc
                 <-> q_orderDir q = Some "desc"%string).
  { destruct (parseOrderDir_spec (q_orderDir q)) as [H1 H2]. split; [ | exact H1].
    intros Hd. destruct (decide (q_orderDir q = Some "desc"%string)) as [ | Hne];
      [assumption | ].
    rewrite (H2 Hne) in Hd. discriminate. }
  destruct (decide (q_orderBy q = Some "name"%string)) as [H1 | H1];
    [ | destruct (decide (q_orderBy q = Some "height"%string)) as [H2 | H2];
        [ | destruct (decide (q_orderBy q = Some "weight"%string)) as [H3 | H3]]].
  1-3: rewrite resolveOrderBy_sorts_by_name by tauto;
       (split; [intros o [= <-]; cbn; auto | split; [discriminate | tauto]]).
  rewrite resolveOrderBy_unsorted by assumption.
  split; [discriminate | tauto].
Qed.

(** X12: the messages come in the order of the fields. *)
Theorem validateData_order (d : PokemonInput) (errs : list Error) :
  PokemonService.validateData d = Some errs ->
  errs <> []
  /\ sublist errs
       ["Invalid name"; "Invalid height"; "Invalid weight"; "Invalid image url"]%string.
Proof.
  rewrite (validateData_errors d). cbv zeta. unfold when.
  destruct (falsy (in_name d)),
    (negb (Js.isInteger (JsValue.ToNumber (in_height d)))
     || Js.lt (JsValue.ToNumber (in_height d)) Js.pzero),
    (negb (Js.isInteger (JsValue.ToNumber (in_weight d)))
     || Js.lt (JsValue.ToNumber (in_weight d)) Js.pzero),
    (falsy (in_image d)); cbn; intros [= <-]; (split; [discriminate | ]);
    repeat first [apply sublist_nil | apply sublist_skip | apply sublist_cons].
Qed.

Lemma In_invalid_height (d : PokemonInput) (errs : list Error) :
  PokemonService.validateData d = Some errs ->
  (In "Invalid height"%string errs
   <-> ~ nonneg_integer (JsValue.ToNumber (in_height d))).
Proof.
  rewrite (validateData_errors d). cbv zeta.
  destruct (when (falsy (in_name d)) "Invalid name" ++ _) as [ | x l] eqn:E;
    [discriminate | ].
  intros [= <-]. rewrite <- E. rewrite !in_app_iff, !In_when.
  rewrite <- invalid_number_spec.
  destruct (negb (Js.isInteger (JsValue.ToNumber (in_height d)))
            || Js.lt (JsValue.ToNumber (in_height d)) Js.pzero).
  - split; [intros _; discriminate | auto].
  - split; [ | congruence].
    intros [[H _] | [[_ H] | [[H _] | [H _]]]]; discriminate.
Qed.

(** X13: a height that is absent is refused, but a height that is [null],
    [false] or the empty string counts as 0. *)
Theorem height_coercion (d : PokemonInput) :
  (in_height d = JsValue.undefined ->
   exists errs, PokemonService.validateData d = Some errs
                /\ In "Invalid height"%string errs)
  /\ (in_height d = JsValue.null \/ in_height d = JsValue.boolean false
      \/ in_height d = JsValue.str EmptyString ->
      ci_height (PokemonService.resolveData d) = Js.pzero
      /\ forall errs, PokemonService.validateData d = Some errs ->
                      ~ In "Invalid height"%string errs).
Proof.
  split.
  - intros Hu.
    destruct (PokemonService.validateData d) as [errs | ] eqn:Hd.
    + exists errs. split; [reflexivity | ].
      apply (In_invalid_height d errs Hd). rewrite Hu.
      intros [Hi _]. discriminate Hi.
    + destruct (validateData_None d Hd) as (_ & [Hi _] & _). rewrite Hu in Hi.
      discriminate Hi.
  - intros Hz.
    assert (Hn : JsValue.ToNumber (in_height d) = Js.pzero)
      by (destruct Hz as [-> | [-> | ->]]; reflexivity).
    split; [exact Hn | ].
    intros errs Hd Hin. apply (In_invalid_height d errs Hd) in Hin. apply Hin.
    rewrite Hn. split; [reflexivity | exists 0; split; [reflexivity | lia]].
Qed.

(** X14: creating a pokemon and deleting it by the id it was given returns
    the created row and restores the table. *)
Theorem create_then_delete (d : PokemonInput) (i : string) (σ : Store) :
  PokemonService.validateData d = None ->
  table σ !! serial σ = None ->
  0 <= serial σ < 2 ^ 53 ->
  Js.StringToNumber i = Js.ofZ (serial σ) ->
  exists r σ1 σ2,
    AppController.createPokemon d σ = (Ok r, σ1)
    /\ id r = serial σ
    /\ AppController.deletePokemon i σ1 = (Ok r, σ2)
    /\ table σ2 = table σ.
Proof.
  intros Hd Hfresh Hs Hi.
  destruct (validated_row d Hd) as (s & h & w & im & _ & _ & _ & _ & _ & _ & _ & _ & Hr).
  eexists _, _, _. rewrite (createPokemon_valid d σ _ Hd (Hr _)).
  split; [reflexivity | ]. split; [reflexivity | ].
  set (r := {| id := serial σ; name := s; height := h; weight := w; image := im |}).
  set (σ1 := {| table := <[serial σ := r]> (table σ); serial := serial σ + 1;
                calls := calls σ ++ [Create (PokemonService.resolveData d)] |}).
  assert (Hint : Prisma.int (Js.StringToNumber i) = Some (serial σ))
    by (rewrite Hi; apply int_ofZ; lia).
  assert (Hlook : table σ1 !! serial σ = Some r) by apply lookup_insert_eq.
  assert (He : id_exists (Js.StringToNumber i) σ1).
  { destruct (int_Some _ _ Hint) as [Hii Htz].
    split; [split; [assumption | exists (serial σ); split; [assumption | lia]] | ].
    exists (serial σ), r. auto. }
  destruct (validateId_exists _ _ He) as (z & r' & Hz & _ & _ & Hv).
  rewrite (deletePokemon_valid i σ1 (serial σ) r Hint Hlook Hv).
  split; [reflexivity | ]. cbn. apply delete_insert_id. assumption.
Qed.

(** X15: the client calls that a request can issue. *)
Theorem route_calls (req : AppController.Request) (σ : Store) :
  exists l,
    calls (snd (AppController.route req σ)) = calls σ ++ l
    /\ match req with
       | AppController.GET_pokemon q =>
           l = [] \/ exists params, PokemonService.constructParams q = Ok params
                                    /\ l = [FindMany params]
       | AppController.POST_pokemon d =>
           l = [] \/ l = [Create (PokemonService.resolveData d)]
       | AppController.PUT_pokemon i d =>
           l = [] \/ l = [FindUnique (Js.StringToNumber i)]
           \/ l = [FindUnique (Js.StringToNumber i);
                   Update (Js.StringToNumber i) (PokemonService.resolveData d)]
       | AppController.DELETE_pokemon i =>
           l = [] \/ l = [FindUnique (Js.StringToNumber i)]
           \/ l = [FindUnique (Js.StringToNumber i); Delete (Js.StringToNumber i)]
       end.
Proof.
  assert (Hid : forall n, exists l,
    calls (snd (PokemonService.validateId n σ)) = calls σ ++ l
    /\ (l = [] \/ l = [FindUnique n])).
  { intros n. destruct (validateId_cases n σ) as [[_ ->] | (z & _ & _ & ->)]; cbn.
    - exists []. rewrite app_nil_r. auto.
    - exists [FindUnique n]. auto. }
  destruct req as [q | d | i d | i]; cbn [AppController.route];
    rewrite snd_bind_ret.
  - destruct (getPokemons_store q σ) as [(e & _ & ->) | (p & Hp & ->)]; cbn.
    + exists []. rewrite app_nil_r. auto.
    + exists [FindMany p]. eauto.
  - destruct (PokemonService.validateData d) as [errs | ] eqn:Hd.
    + rewrite (createPokemon_invalid_body d σ errs Hd). cbn.
      exists []. rewrite app_nil_r. auto.
    + destruct (validated_row d Hd) as (s & h & w & im & _ & _ & _ & _ & _ & _ & _ & _ & Hr).
      rewrite (createPokemon_valid d σ _ Hd (Hr _)). cbn. eauto.
  - destruct (PokemonService.validateData d) as [errs | ] eqn:Hd.
    { rewrite (publishPokemon_invalid_body i d σ errs Hd). cbn.
      exists []. rewrite app_nil_r. auto. }
    destruct (validateId_result (Js.StringToNumber i) σ) as [[He _] | [_ Hf]].
    + destruct (validateId_exists _ _ He) as (z & old & Hz & Ho & _ & Hv).
      destruct (validated_row d Hd) as (s & h & w & im & _ & _ & _ & _ & _ & _ & _ & _ & Hr).
      rewrite (publishPokemon_valid i d σ z old _ Hd Hz Ho Hv (Hr z)). cbn. eauto.
    + rewrite (publishPokemon_invalid_id i d σ _ Hd Hf). cbn [snd].
      destruct (Hid (Js.StringToNumber i)) as (l & Hl & [-> | ->]); eauto.
  - destruct (validateId_result (Js.StringToNumber i) σ) as [[He _] | [_ Hf]].
    + destruct (validateId_exists _ _ He) as (z & r & Hz & Hr & _ & Hv).
      rewrite (deletePokemon_valid i σ z r Hz Hr Hv). cbn. eauto.
    + rewrite (deletePokemon_invalid i σ _ Hf). cbn [snd].
      destruct (Hid (Js.StringToNumber i)) as (l & Hl & [-> | ->]); eauto.
Qed.

(** X16: the same update twice is the same as once. *)
Theorem update_idempotent (i : string) (d : PokemonInput) (σ : Store) :
  PokemonService.validateData d = None ->
  id_exists (Js.StringToNumber i) σ ->
  exists r σ1 σ2,
    AppController.publishPokemon i d σ = (Ok r, σ1)
    /\ AppController.publishPokemon i d σ1 = (Ok r, σ2)
    /\ table σ2 = table σ1.
Proof.
  intros Hd He.
  destruct (validateId_exists _ _ He) as (z & old & Hz & Ho & Hz0 & Hv).
  destruct (validated_row d Hd) as (s & h & w & im & _ & _ & _ & _ & _ & _ & _ & _ & Hr).
  eexists _, _, _. rewrite (publishPokemon_valid i d σ z old _ Hd Hz Ho Hv (Hr z)).
  split; [reflexivity | ].
  set (r := {| id := z; name := s; height := h; weight := w; image := im |}).
  set (σ1 := {| table := <[z := r]> (table σ); serial := serial σ;
                calls := calls σ ++ [FindUnique (Js.StringToNumber i);
                                     Update (Js.StringToNumber i)
                                       (PokemonService.resolveData d)] |}).
  assert (Hlook : table σ1 !! z = Some r) by apply lookup_insert_eq.
  assert (He1 : id_exists (Js.StringToNumber i) σ1).
  { destruct (int_Some _ _ Hz) as [Hii Htz].
    split; [split; [assumption | exists z; auto] | exists z, r; auto]. }
  destruct (validateId_exists _ _ He1) as (z' & r' & Hz' & _ & _ & Hv1).
  rewrite (publishPokemon_valid i d σ1 z r _ Hd Hz Hlook Hv1 (Hr z)).
  split; [reflexivity | ]. cbn. apply insert_insert_eq.
Qed.

(** X17: a create never reuses an id and never touches another row. *)
Theorem create_fresh_id (d : PokemonInput) (σ : Store) :
  serial_fresh σ ->
  PokemonService.validateData d = None ->
  exists r σ1,
    AppController.createPokemon d σ = (Ok r, σ1)
    /\ table σ !! id r = None
    /\ table σ1 !! id r = Some r
    /\ (forall k x, table σ !! k = Some x -> table σ1 !! k = Some x)
    /\ size (table σ1) = S (size (table σ)).
Proof.
  intros Hf Hd.
  destruct (validated_row d Hd) as (s & h & w & im & _ & _ & _ & _ & _ & _ & _ & _ & Hr).
  assert (Hnone : table σ !! serial σ = None).
  { destruct (table σ !! serial σ) as [x | ] eqn:E; [ | reflexivity].
    specialize (Hf _ _ E). lia. }
  eexists _, _. rewrite (createPokemon_valid d σ _ Hd (Hr _)).
  split; [reflexivity | ]. cbn.
  split; [assumption | ]. split; [apply lookup_insert_eq | ].
  split.
  - intros k x Hk. rewrite lookup_insert_ne; [assumption | ].
    intros <-. congruence.
  - apply map_size_insert_None. assumption.
Qed.

(** X18: a page parameter that parses to the integer [z] is normalized to the
    larger of 1 and [z]. *)
Theorem page_normalization (o : option string) (z : Z) :
  Number_ o = Js.ofZ z -> - 2 ^ 53 < z < 2 ^ 53 ->
  PokemonService.validPage (PokemonService.resolveNumber o) = Js.ofZ (Z.max 1 z).
Proof.
  intros Hn Hz. unfold PokemonService.resolveNumber.
  rewrite Hn, isInteger_ofZ by assumption. apply validPage_ofZ. assumption.
Qed.

Ltac only_row H :=
  change (table one_row_store) with ({[1 := pikachu]} : gmap Z Pokemon) in H;
  apply lookup_singleton_Some in H as [<- <-].

Ltac row_one_exists :=
  split;
  [ split; [vm_compute; reflexivity
           | exists 1; split; [vm_compute; reflexivity | lia]]
  | exists 1, pikachu; split; [vm_compute; reflexivity | reflexivity] ].

Lemma create_stores_input_witness :
  exists s h w im,
    in_name raichu_body = Some s /\ in_image raichu_body = Some im
    /\ Js.toZ (JsValue.ToNumber (in_height raichu_body)) = Some h
    /\ Js.toZ (JsValue.ToNumber (in_weight raichu_body)) = Some w
    /\ let r := {| id := serial one_row_store; name := s; height := h; weight := w;
                   image := im |} in
       AppController.createPokemon raichu_body one_row_store
       = (Ok r, {| table := <[serial one_row_store := r]> (table one_row_store);
                   serial := serial one_row_store + 1;
                   calls := calls one_row_store
                            ++ [Create (PokemonService.resolveData raichu_body)] |}).
Proof.
  apply (create_stores_input raichu_body one_row_store).
  vm_compute. reflexivity.
Defined.

Lemma update_replaces_row_witness :
  exists z s h w im,
    Js.toZ (Js.StringToNumber "1") = Some z
    /\ in_name raichu_body = Some s /\ in_image raichu_body = Some im
    /\ Js.toZ (JsValue.ToNumber (in_height raichu_body)) = Some h
    /\ Js.toZ (JsValue.ToNumber (in_weight raichu_body)) = Some w
    /\ let r := {| id := z; name := s; height := h; weight := w; image := im |} in
       AppController.publishPokemon "1" raichu_body one_row_store
       = (Ok r, {| table := <[z := r]> (table one_row_store);
                   serial := serial one_row_store;
                   calls := calls one_row_store
                            ++ [FindUnique (Js.StringToNumber "1");
                                Update (Js.StringToNumber "1")
                                  (PokemonService.resolveData raichu_body)] |}).
Proof.
  apply (update_replaces_row "1" raichu_body one_row_store).
  - vm_compute. reflexivity.
  - row_one_exists.
Defined.

Lemma delete_removes_row_witness :
  exists z r σ',
    Js.toZ (Js.StringToNumber "1") = Some z /\ table one_row_store !! z = Some r
    /\ AppController.deletePokemon "1" one_row_store = (Ok r, σ')
    /\ table σ' = base.delete z (table one_row_store)
    /\ serial σ' = serial one_row_store
    /\ calls σ' = calls one_row_store ++ [FindUnique (Js.StringToNumber "1");
                                          Delete (Js.StringToNumber "1")]
    /\ fst (AppController.deletePokemon "1" σ')
       = Throw (BadRequestException (message "Invalid id")).
Proof.
  apply (delete_removes_row "1" one_row_store). row_one_exists.
Defined.

Lemma create_then_delete_witness :
  exists r σ1 σ2,
    AppController.createPokemon raichu_body one_row_store = (Ok r, σ1)
    /\ id r = serial one_row_store
    /\ AppController.deletePokemon "2" σ1 = (Ok r, σ2)
    /\ table σ2 = table one_row_store.
Proof.
  apply (create_then_delete raichu_body "2" one_row_store).
  - vm_compute. reflexivity.
  - vm_compute. reflexivity.
  - split; [cbn; lia | vm_compute; reflexivity].
  - vm_compute. reflexivity.
Defined.

Lemma update_idempotent_witness :
  exists r σ1 σ2,
    AppController.publishPokemon "1" raichu_body one_row_store = (Ok r, σ1)
    /\ AppController.publishPokemon "1" raichu_body σ1 = (Ok r, σ2)
    /\ table σ2 = table σ1.
Proof.
  apply (update_idempotent "1" raichu_body one_row_store).
  - vm_compute. reflexivity.
  - row_one_exists.
Defined.

Lemma one_row_valid : valid_table one_row_store.
Proof.
  intros k r H. only_row H.
  unfold well_formed. cbn. repeat split; try discriminate; lia.
Qed.

Lemma one_row_fresh : serial_fresh one_row_store.
Proof.
  intros k r H. only_row H. cbn. lia.
Qed.

Lemma route_keeps_rows_valid_witness :
  valid_table
    (snd (AppController.route (AppController.PUT_pokemon "1" raichu_body)
            one_row_store)).
Proof.
  apply (route_keeps_rows_valid (AppController.PUT_pokemon "1" raichu_body)
           one_row_store).
  intros k r H. only_row H.
  unfold well_formed. cbn. repeat split; try discriminate; lia.
Defined.

Lemma route_keeps_serial_fresh_witness :
  serial_fresh
    (snd (AppController.route (AppController.POST_pokemon raichu_body)
            one_row_store)).
Proof.
  apply (route_keeps_serial_fresh (AppController.POST_pokemon raichu_body)
           one_row_store).
  intros k r H. only_row H. cbn. lia.
Defined.

Lemma create_fresh_id_witness :
  exists r σ1,
    AppController.createPokemon raichu_body one_row_store = (Ok r, σ1)
    /\ table one_row_store !! id r = None
    /\ table σ1 !! id r = Some r
    /\ (forall k x, table one_row_store !! k = Some x -> table σ1 !! k = Some x)
    /\ size (table σ1) = S (size (table one_row_store)).
Proof.
  apply (create_fresh_id raichu_body one_row_store).
  - intros k r H. only_row H. cbn. lia.
  - vm_compute. reflexivity.
Defined.

Lemma page_normalization_witness :
  PokemonService.validPage (PokemonService.resolveNumber (Some "-3"%string))
  = Js.ofZ (Z.max 1 (-3)).
Proof.
  apply (page_normalization (Some "-3"%string) (-3)).
  - vm_compute. reflexivity.
  - split; vm_compute; reflexivity.
Defined.

Lemma validateData_order_witness :
  ["Invalid height"; "Invalid image url"]%string <> []
  /\ sublist ["Invalid height"; "Invalid image url"]%string
       ["Invalid name"; "Invalid height"; "Invalid weight"; "Invalid image url"]%string.
Proof.
  apply (validateData_order
           (body (Some "pikachu") (JsValue.str "-4") (JsValue.num (Js.ofZ 60)) None)).
  vm_compute. reflexivity.
Defined.

Lemma list_within_page_size_witness :
  exists ps,
    (ps = 10 \/ ps = 20 \/ ps = 50)
    /\ PokemonService.resolvePageSize (q_pageSize (query None None None (Some "20")))
       = Ok (Js.ofZ ps)
    /\ Z.of_nat (length [pikachu]) <= ps
    /\ forall r, In r [pikachu] ->
         Prisma.matches
           (PokemonService.resolveWhere (query None None None (Some "20"))) r = true
         /\ exists k, table one_row_store !! k = Some r.
Proof.
  apply (list_within_page_size (query None None None (Some "20")) one_row_store
           {| PokemonService.pokemons := [pikachu];
              PokemonService.page := Js.ofZ 1 |}).
  vm_compute. reflexivity.
Defined.

Lemma list_respects_bound_witness :
  within heightGte 3 (bound_value heightGte pikachu).
Proof.
  apply (list_respects_bound tall_query heightGte 3 one_row_store
           {| PokemonService.pokemons := [pikachu];
              PokemonService.page := Js.ofZ 1 |} pikachu).
  - vm_compute. reflexivity.
  - split; vm_compute; reflexivity.
  - vm_compute. reflexivity.
  - left. reflexivity.
  - split; vm_compute; reflexivity.
Defined.
